(** * Percentile tables for powerlifting results

    A shallow embedding of [scripts/generate_powerlifting_percentiles.py]:
    the classifier ([get_weight_class], [get_age_bracket]), the reducer
    ([calculate_percentile]) and the batch transform ([process_data]) that
    buckets the rows of the competition table and emits the nested
    percentile dictionary.

    Numbers.  Python [int] is [Z].  Python [float] is idealised as an exact
    rational ([Q]): arithmetic does not round, and there is neither NaN nor
    an infinity nor a signed zero.  Numeric equality of floats ([==] in
    Python) is [Qeq].

    Failure.  An uncaught Python exception ([IndexError], [KeyError]) is
    [None] in the [option] monad; [float(s)] raising [ValueError] is the
    parser returning [None]. *)

From Stdlib Require Import QArith Qround ZArith String Ascii List Lia Lqa.
From Stdlib Require Import Sorting.Permutation Sorting.Sorted.
From stdpp Require Import gmap strings list fin_maps pretty.

Local Open Scope string_scope.
Local Open Scope Z_scope.

(** ** The fragment of Python the script relies on *)

Module Py.

(** [len(l)] *)
Definition len {A : Type} (l : list A) : Z := Z.of_nat (length l).

(** [l[i]]: a negative index counts from the end, an index outside
    [-len(l) .. len(l)-1] raises [IndexError]. *)
Definition getitem {A : Type} (l : list A) (i : Z) : option A :=
  if 0 <=? i then l !! Z.to_nat i
  else if - len l <=? i then l !! Z.to_nat (len l + i)
  else None.

(** [str(n)] and [f"{n}+"] for an [int]. *)
Definition str (n : Z) : string := pretty n.
Definition str_plus (n : Z) : string := str n +:+ "+".

(** [int(x)] for a float: truncation toward zero. *)
Definition int (x : Q) : Z := Z.quot (Qnum x) (Z.pos (Qden x)).

(** [x < y] and [x <= y] on floats. *)
Definition ltb (x y : Q) : bool := negb (Qle_bool y x).
Definition leb (x y : Q) : bool := Qle_bool x y.

(** [sorted(l)]: the stable ascending sort, which compares with [<]
    only.  On a total preorder every stable sort computes the same list;
    it is written here as the insertion of each element in front of the
    sorted rest, before the first element that is not smaller. *)
Fixpoint insort (x : Q) (l : list Q) : list Q :=
  match l with
  | [] => [x]
  | y :: l' => if ltb y x then y :: insort x l' else x :: y :: l'
  end.

Fixpoint sorted (l : list Q) : list Q :=
  match l with
  | [] => []
  | x :: l' => insort x (sorted l')
  end.

(** [round(x, 1)]: to one decimal, ties to the even neighbour. *)
Definition round_half_even (x : Q) : Z :=
  let f := Qfloor x in
  match Qcompare (x - inject_Z f) (1 # 2) with
  | Lt => f
  | Gt => f + 1
  | Eq => if Z.even f then f else f + 1
  end.

Definition round1 (x : Q) : Q :=
  Qred (inject_Z (round_half_even (x * inject_Z 10)) / inject_Z 10).

(** [s.lower()] on the ASCII letters. *)
Definition lower_ascii (c : ascii) : ascii :=
  let n := nat_of_ascii c in
  if ((65 <=? n) && (n <=? 90))%nat then ascii_of_nat (n + 32) else c.

Fixpoint lower (s : string) : string :=
  match s with
  | EmptyString => EmptyString
  | String c s' => String (lower_ascii c) (lower s')
  end.

(** [s.startswith(p)] *)
Definition startswith (s p : string) : bool := String.prefix p s.

(** Truth value of a string: [if s:] *)
Definition truthy (s : string) : bool :=
  match s with EmptyString => false | _ => true end.

(** The values the result is made of: what [json.dump] accepts. *)
#[warnings="-register-all"]
Inductive value : Type :=
| VInt (n : Z)
| VFloat (x : Q)
| VStr (s : string)
| VList (l : list value)
| VDict (d : list (string * value)).

(** A [dict] with string keys keeps its keys in insertion order. *)
Section Dict.
Context {V : Type}.

(** [d.get(k)] / [k in d] *)
Fixpoint dict_get (d : list (string * V)) (k : string) : option V :=
  match d with
  | [] => None
  | (k', v) :: d' => if String.eqb k' k then Some v else dict_get d' k
  end.

(** [d[k] = v]: overwrite in place, or append a new key. *)
Fixpoint dict_set (d : list (string * V)) (k : string) (v : V)
  : list (string * V) :=
  match d with
  | [] => [(k, v)]
  | (k', v') :: d' =>
      if String.eqb k' k then (k', v) :: d' else (k', v') :: dict_set d' k v
  end.

Definition keys (d : list (string * V)) : list string := map fst d.
End Dict.

(** [d[k1][k2] = v] where [d[k1]] must be a dict, else the access raises. *)
Definition setitem2 (d : list (string * value)) (k1 k2 : string) (v : value)
  : option (list (string * value)) :=
  match dict_get d k1 with
  | Some (VDict inner) => Some (dict_set d k1 (VDict (dict_set inner k2 v)))
  | _ => None
  end.

(** [for x in l: s = body(x, s)], where the body may raise. *)
Fixpoint for_each {A S : Type} (body : A -> S -> option S) (l : list A) (s : S)
  : option S :=
  match l with
  | [] => Some s
  | a :: l' => match body a s with
               | Some s' => for_each body l' s'
               | None => None
               end
  end.

End Py.

Import Py.

(** ** Configuration *)

Definition MALE_WEIGHT_CLASSES : list Z := [59; 66; 74; 83; 93; 105; 120; 140].
Definition FEMALE_WEIGHT_CLASSES : list Z := [47; 52; 57; 63; 69; 76; 84; 100].

Definition AGE_BRACKETS : list (Z * Z * string) :=
  [ (0, 23, "junior");
    (24, 39, "open");
    (40, 49, "masters_40");
    (50, 59, "masters_50");
    (60, 69, "masters_60");
    (70, 999, "masters_70") ].

Definition PERCENTILES : list Z := [5; 10; 20; 30; 40; 50; 60; 70; 80; 90; 95; 99].

(** ** Classifier *)

(** The [for wc in classes] loop of [get_weight_class] with its early
    return; [None] when the loop runs to its end. *)
Fixpoint first_class (bodyweight : Q) (classes : list Z) : option Z :=
  match classes with
  | [] => None
  | wc :: rest =>
      if leb bodyweight (inject_Z wc) then Some wc else first_class bodyweight rest
  end.

(** [MALE_WEIGHT_CLASSES if is_male else FEMALE_WEIGHT_CLASSES] *)
Definition weight_classes_of (is_male : bool) : list Z :=
  if is_male then MALE_WEIGHT_CLASSES else FEMALE_WEIGHT_CLASSES.

Definition get_weight_class (bodyweight : Q) (is_male : bool) : string :=
  let classes := weight_classes_of is_male in
  match first_class bodyweight classes with
  | Some wc => str wc
  | None => str_plus (List.last classes 0)
  end.

Fixpoint first_bracket (age : Q) (brackets : list (Z * Z * string)) : option string :=
  match brackets with
  | [] => None
  | (min_age, max_age, bracket) :: rest =>
      if leb (inject_Z min_age) age && leb age (inject_Z max_age)
      then Some bracket
      else first_bracket age rest
  end.

Definition get_age_bracket (age : Q) : option string :=
  first_bracket age AGE_BRACKETS.

(** ** Percentile reducer *)

Definition calculate_percentile (values : list Q) (percentile : Z) : option Q :=
  match values with
  | [] => Some 0%Q
  | _ =>
      let sorted_values := sorted values in
      let index := (inject_Z ((len sorted_values - 1) * percentile) / inject_Z 100)%Q in
      let lower := int index in
      let upper := lower + 1 in
      if len sorted_values <=? upper then getitem sorted_values (-1)
      else
        let weight := (index - inject_Z lower)%Q in
        a ← getitem sorted_values lower;
        b ← getitem sorted_values upper;
        Some (a * (1 - weight) + b * weight)%Q
  end.

(** ** Aggregator *)

(** A row of [csv.DictReader]: column name to cell text.
    [row.get(k, '')] is [cell row k]. *)
Abbreviation row := (gmap string string).

Definition cell (r : row) (k : string) : string := default "" (r !! k).

(** The two accumulators of [process_data] and its counter of included
    lifters.  [all_ages_data] is sex -> weight class -> lift -> values,
    [data] is sex -> weight class -> age bracket -> lift -> values.  The
    inner levels are [defaultdict]s: reading a missing key yields the empty
    value, which is the total lookup [!!!]. *)
Record tables : Type := Tables {
  all_ages_data : gmap string (gmap string (gmap string (list Q)));
  data : gmap string (gmap string (gmap string (gmap string (list Q))));
  included_count : Z
}.

Definition empty_tables : tables :=
  {| all_ages_data := <["male" := ∅]> (<["female" := ∅]> ∅);
     data := <["male" := ∅]> (<["female" := ∅]> ∅);
     included_count := 0 |}.

(** [all_ages_data[sex_key][weight_class][lift].append(v)] *)
Definition append_all_ages
    (m : gmap string (gmap string (gmap string (list Q))))
    (sex_key weight_class lift : string) (v : Q)
  : gmap string (gmap string (gmap string (list Q))) :=
  let by_class : gmap string (gmap string (list Q)) := m !!! sex_key in
  let by_lift : gmap string (list Q) := by_class !!! weight_class in
  <[sex_key := <[weight_class := <[lift := ((by_lift !!! lift) ++ [v])%list]> by_lift]> by_class]> m.

(** [data[sex_key][weight_class][age_bracket][lift].append(v)] *)
Definition append_by_age
    (m : gmap string (gmap string (gmap string (gmap string (list Q)))))
    (sex_key weight_class age_bracket lift : string) (v : Q)
  : gmap string (gmap string (gmap string (gmap string (list Q)))) :=
  let by_class : gmap string (gmap string (gmap string (list Q))) :=
    m !!! sex_key in
  let by_age : gmap string (gmap string (list Q)) := by_class !!! weight_class in
  let by_lift : gmap string (list Q) := by_age !!! age_bracket in
  <[sex_key :=
      <[weight_class :=
          <[age_bracket := <[lift := ((by_lift !!! lift) ++ [v])%list]> by_lift]> by_age]>
        by_class]> m.

(** [all_ages_data[sex_key][weight_class_key][lift]] and
    [data[sex_key][weight_class_key][age_bracket][lift]], read. *)
Definition all_ages_values (t : tables) (sex_key weight_class_key lift : string)
  : list Q :=
  ((all_ages_data t !!! sex_key) !!! weight_class_key) !!! lift.

Definition by_age_values (t : tables)
    (sex_key weight_class_key age_bracket lift : string) : list Q :=
  (((data t !!! sex_key) !!! weight_class_key) !!! age_bracket) !!! lift.

(** [if age_bracket:] on a [str | None]. *)
Definition bracket_given (age_bracket : option string) : bool :=
  match age_bracket with
  | Some b => truthy b
  | None => false
  end.

Section Pipeline.

(** [float(s)] of the Python runtime, taken as given: [None] stands for
    [ValueError]. *)
Variable float : string -> option Q.

(** Lines 168-176: the optional age bracket of a row. *)
Definition row_age_bracket (r : row) : option string :=
  let age_str := cell r "Age" in
  if truthy age_str then
    match float age_str with
    | Some age => get_age_bracket age
    | None => None
    end
  else None.

(** One of the three "store valid lift" blocks (squat, bench, deadlift),
    which differ in the lift name and the column only.  The state is the
    pair of the tables and [lifts_added]. *)
Definition store_lift (lift raw sex_key weight_class : string)
    (age_bracket : option string) (st : tables * bool) : tables * bool :=
  if truthy raw && negb (startswith raw "-") then
    match float raw with
    | Some val =>
        if ltb 0 val then
          let t := st.1 in
          ({| all_ages_data :=
                append_all_ages (all_ages_data t) sex_key weight_class lift val;
              data :=
                match age_bracket with
                | Some b =>
                    if bracket_given age_bracket
                    then append_by_age (data t) sex_key weight_class b lift val
                    else data t
                | None => data t
                end;
              included_count := included_count t |}, true)
        else st
    | None => st
    end
  else st.

(** The body of [for row in reader]. *)
Definition process_row (t : tables) (r : row) : tables :=
  let bodyweight_str := cell r "BodyweightKg" in
  if negb (truthy bodyweight_str) then t
  else
    match float bodyweight_str with
    | None => t
    | Some bodyweight =>
        let sex := lower (cell r "Sex") in
        if negb (String.eqb sex "m" || String.eqb sex "f") then t
        else
          let is_male := String.eqb sex "m" in
          let sex_key := if is_male then "male" else "female" in
          let weight_class := get_weight_class bodyweight is_male in
          if negb (truthy weight_class) then t
          else
            let age_bracket := row_age_bracket r in
            let st := (t, false) in
            let st := store_lift "squat" (cell r "Best3SquatKg")
                        sex_key weight_class age_bracket st in
            let st := store_lift "bench" (cell r "Best3BenchKg")
                        sex_key weight_class age_bracket st in
            let st := store_lift "deadlift" (cell r "Best3DeadliftKg")
                        sex_key weight_class age_bracket st in
            if st.2
            then {| all_ages_data := all_ages_data st.1;
                    data := data st.1;
                    included_count := included_count st.1 + 1 |}
            else st.1
    end.

Definition ingest (rows : list row) : tables :=
  fold_left process_row rows empty_tables.

End Pipeline.

(** ** Percentile tables *)

Definition LIFTS : list string := ["squat"; "bench"; "deadlift"].

(** [[ab[2] for ab in AGE_BRACKETS]] *)
Definition bracket_names : list string := map (fun ab => ab.2) AGE_BRACKETS.

(** [k in m] for a dict *)
Definition contains {V : Type} (m : gmap string V) (k : string) : bool :=
  bool_decide (is_Some (m !! k)).

(** Truth value of a result value: [if v:] *)
Definition truthy_value (v : value) : bool :=
  match v with
  | VInt n => negb (n =? 0)
  | VFloat x => negb (Qeq_bool x 0)
  | VStr s => truthy s
  | VList l => match l with [] => false | _ => true end
  | VDict d => match d with [] => false | _ => true end
  end.

(** [{str(p): round(calculate_percentile(values, p), 1) for p in PERCENTILES}] *)
Definition percentile_dict (values : list Q) : option (list (string * value)) :=
  for_each
    (fun p d =>
       v ← calculate_percentile values p;
       Some (dict_set d (str p) (VFloat (round1 v))))
    PERCENTILES [].

(** [{"count": len(values), "percentiles": {...}}] *)
Definition lift_entry (values : list Q) : option value :=
  percentiles ← percentile_dict values;
  Some (VDict [("count", VInt (len values)); ("percentiles", VDict percentiles)]).

Section Generate.

Variable t : tables.
Variable sex_key : string.
Variable weight_class_key : string.

(** Lines 258-267: body of the "all ages" loop over the lifts. *)
Definition all_ages_body (lift : string) (wc_data : list (string * value))
  : option (list (string * value)) :=
  let values := all_ages_values t sex_key weight_class_key lift in
  if 50 <=? len values
  then e ← lift_entry values; setitem2 wc_data "all_ages" lift e
  else Some wc_data.

(** Lines 277-286: body of the loop over the lifts of one age bracket. *)
Definition age_lift_body (age_bracket lift : string)
    (age_data : list (string * value)) : option (list (string * value)) :=
  let values := by_age_values t sex_key weight_class_key age_bracket lift in
  if 30 <=? len values
  then e ← lift_entry values; Some (dict_set age_data lift e)
  else Some age_data.

(** Lines 270-289: body of the loop over the age brackets. *)
Definition by_age_body (age_bracket : string) (wc_data : list (string * value))
  : option (list (string * value)) :=
  if negb (contains (data t !!! sex_key) weight_class_key) then Some wc_data
  else if negb (contains ((data t !!! sex_key) !!! weight_class_key) age_bracket)
  then Some wc_data
  else
    age_data ← for_each (age_lift_body age_bracket) LIFTS [];
    if truthy_value (VDict age_data)
    then setitem2 wc_data "by_age" age_bracket (VDict age_data)
    else Some wc_data.

(** Lines 249-292: body of [for weight_class_key in [wc_str, wc_plus]]. *)
Definition class_key_body (result : list (string * value))
  : option (list (string * value)) :=
  if negb (contains (all_ages_data t !!! sex_key) weight_class_key) then Some result
  else
    let wc_data := [("all_ages", VDict []); ("by_age", VDict [])] in
    wc_data ← for_each all_ages_body LIFTS wc_data;
    wc_data ← for_each by_age_body bracket_names wc_data;
    all_ages ← dict_get wc_data "all_ages";
    if truthy_value all_ages
    then setitem2 result sex_key weight_class_key (VDict wc_data)
    else Some result.

End Generate.

Definition metadata (t : tables) : value :=
  VDict [ ("source", VStr "OpenPowerlifting");
          ("url", VStr "https://www.openpowerlifting.org");
          ("lifter_count", VInt (included_count t));
          ("description", VStr "Percentile data from competitive powerlifting meets");
          ("units", VStr "kg");
          ("percentiles", VList (map VInt PERCENTILES)) ].

Definition initial_result (t : tables) : list (string * value) :=
  [("metadata", metadata t); ("male", VDict []); ("female", VDict [])].

(** Lines 244-248: the loop over the thresholds, each tried as ["wc"] and
    ["wc+"]. *)
Definition class_body (t : tables) (sex_key : string) (wc : Z)
    (result : list (string * value)) : option (list (string * value)) :=
  for_each (fun k r => class_key_body t sex_key k r) [str wc; str_plus wc] result.

(** Lines 241-242 *)
Definition sex_body (t : tables) (sex_key : string)
    (result : list (string * value)) : option (list (string * value)) :=
  let weight_classes := weight_classes_of (String.eqb sex_key "male") in
  for_each (class_body t sex_key) weight_classes result.

Definition generate (t : tables) : option value :=
  result ← for_each (sex_body t) ["male"; "female"] (initial_result t);
  Some (VDict result).

Definition process_data (float : string -> option Q) (rows : list row) : option value :=
  generate (ingest float rows).

(** Reading the result: [v[k]] and [v[k1][k2]...]. *)
Definition item (v : value) (k : string) : option value :=
  match v with
  | VDict d => dict_get d k
  | _ => None
  end.

Fixpoint at_path (v : value) (ks : list string) : option value :=
  match ks with
  | [] => Some v
  | k :: ks' => match item v k with
                | Some v' => at_path v' ks'
                | None => None
                end
  end.

(** ** Concrete inputs

    [float(s)] on plain decimal numerals: an optional sign, digits, and at
    most one point with a digit on one side of it.  This is the notation
    of the data set; Python accepts more (exponents, [inf], [nan], blanks
    around the numeral), which this reader rejects.  It serves the worked
    examples only: the theorems hold for every reader. *)

Definition digit (c : ascii) : option Z :=
  let n := nat_of_ascii c in
  if ((48 <=? n) && (n <=? 57))%nat then Some (Z.of_nat n - 48) else None.

Fixpoint read_decimal (s : string) (num : Z) (scale : positive)
    (after_point seen_digit : bool) : option Q :=
  match s with
  | EmptyString => if seen_digit then Some (num # scale)%Q else None
  | String c s' =>
      if Ascii.eqb c "."%char then
        if after_point then None else read_decimal s' num scale true seen_digit
      else
        match digit c with
        | Some d =>
            read_decimal s' (10 * num + d)
              (if after_point then (10 * scale)%positive else scale)
              after_point true
        | None => None
        end
  end.

Definition float_of_decimal (s : string) : option Q :=
  match s with
  | String c s' =>
      if Ascii.eqb c "-"%char then Qopp <$> read_decimal s' 0 1 false false
      else if Ascii.eqb c "+"%char then read_decimal s' 0 1 false false
      else read_decimal s 0 1 false false
  | EmptyString => None
  end.

(** A male lifter of 80 kg, aged 30, with a 200 kg squat and no other lift. *)
Definition squat_row : row :=
  list_to_map [("Sex", "M"); ("BodyweightKg", "80"); ("Age", "30");
               ("Best3SquatKg", "200")].

(** The same lifter with another text in the age column. *)
Definition aged_row (age : string) : row := <["Age" := age]> squat_row.

(** Fifty identical rows: enough for a statistic over all ages and for one
    in the age bracket. *)
Definition fifty_rows : list row := repeat squat_row 50.

(** ** Vocabulary of the specification *)

(** The fractional index [(N-1)*p/100] of percentile [p] in [N] values. *)
Definition fractional_index (N p : Z) : Q :=
  (inject_Z ((N - 1) * p) / inject_Z 100)%Q.

(** The range [[min, max]] of a configured bracket contains the age. *)
Definition in_range (age : Q) (ab : Z * Z * string) : Prop :=
  (inject_Z ab.1.1 <= age)%Q /\ (age <= inject_Z ab.1.2)%Q.

(** [b] is the label of the first configured range containing the age. *)
Definition first_containing (age : Q) (b : string) : Prop :=
  exists (k : nat) (ab : Z * Z * string),
    AGE_BRACKETS !! k = Some ab /\ ab.2 = b /\ in_range age ab /\
    forall (j : nat) (ab' : Z * Z * string),
      (j < k)%nat -> AGE_BRACKETS !! j = Some ab' -> ~ in_range age ab'.

(** The number [calculate_percentile] returns, with [0] where it raises. *)
Definition percentile_value (values : list Q) (p : Z) : Q :=
  default 0%Q (calculate_percentile values p).

(** The statistic of a list of values: its size and its percentile table. *)
Definition lift_stat (values : list Q) : value :=
  VDict [ ("count", VInt (len values));
          ("percentiles",
           VDict (map (fun p => (str p, VFloat (round1 (percentile_value values p))))
                      PERCENTILES)) ].

(** The keys the generator tries for one sex: every threshold, plain and
    with a ["+"]. *)
Definition class_keys (sex_key : string) : list string :=
  flat_map (fun wc => [str wc; str_plus wc])
           (weight_classes_of (String.eqb sex_key "male")).

(** *** What every entry of the result satisfies *)

Section Entries.
Variable t : tables.
Variable sex_key : string.

(** An entry [lift: statistic] of an ["all_ages"] mapping. *)
Definition all_ages_entry (weight_class_key : string) (kv : string * value) : Prop :=
  In kv.1 LIFTS /\
  50 <= len (all_ages_values t sex_key weight_class_key kv.1) /\
  kv.2 = lift_stat (all_ages_values t sex_key weight_class_key kv.1).

(** An entry [lift: statistic] of the mapping of one age bracket. *)
Definition age_lift_entry (weight_class_key age_bracket : string)
    (kv : string * value) : Prop :=
  In kv.1 LIFTS /\
  30 <= len (by_age_values t sex_key weight_class_key age_bracket kv.1) /\
  kv.2 = lift_stat (by_age_values t sex_key weight_class_key age_bracket kv.1).

(** An entry [age bracket: {lift: statistic}] of a ["by_age"] mapping. *)
Definition by_age_entry (weight_class_key : string) (kv : string * value) : Prop :=
  In kv.1 bracket_names /\
  exists age_data,
    kv.2 = VDict age_data /\ age_data <> [] /\
    Forall (age_lift_entry weight_class_key kv.1) age_data.

(** An entry [weight class: {"all_ages": ..., "by_age": ...}]. *)
Definition class_entry (kv : string * value) : Prop :=
  In kv.1 (class_keys sex_key) /\
  exists all_ages by_age,
    kv.2 = VDict [("all_ages", VDict all_ages); ("by_age", VDict by_age)] /\
    all_ages <> [] /\
    Forall (all_ages_entry kv.1) all_ages /\
    Forall (by_age_entry kv.1) by_age.
End Entries.

Definition result_ok (t : tables) (result : list (string * value)) : Prop :=
  exists male female,
    result = [("metadata", metadata t); ("male", VDict male); ("female", VDict female)] /\
    Forall (class_entry t "male") male /\
    Forall (class_entry t "female") female.

(** *** Shapes *)

Definition is_number (v : value) : bool :=
  match v with VFloat _ => true | _ => false end.

(** [{"count": int, "percentiles": {key: number}}] and nothing else. *)
Definition is_lift_stat (v : value) : bool :=
  match v with
  | VDict [(k1, VInt _); (k2, VDict ps)] =>
      String.eqb k1 "count" && String.eqb k2 "percentiles"
      && forallb (fun kv => is_number kv.2) ps
  | _ => false
  end.

(** A mapping whose keys are lift names and whose values are statistics. *)
Definition is_lift_table (v : value) : bool :=
  match v with
  | VDict d =>
      forallb (fun kv => existsb (String.eqb kv.1) LIFTS && is_lift_stat kv.2) d
  | _ => false
  end.

(** The shape of a weight-class entry as the specification words it: the
    lift names come directly under ["all_ages"] and under ["by_age"]. *)
Definition claimed_class_shape (v : value) : bool :=
  match v with
  | VDict [(k1, all_ages); (k2, by_age)] =>
      String.eqb k1 "all_ages" && String.eqb k2 "by_age"
      && is_lift_table all_ages && is_lift_table by_age
  | _ => false
  end.

(** The shape of a weight-class entry with the age-bracket level under
    ["by_age"]. *)
Definition class_shape (v : value) : bool :=
  match v with
  | VDict [(k1, all_ages); (k2, VDict by_age)] =>
      String.eqb k1 "all_ages" && String.eqb k2 "by_age"
      && is_lift_table all_ages
      && forallb (fun kv => existsb (String.eqb kv.1) bracket_names
                            && is_lift_table kv.2) by_age
  | _ => false
  end.

(** *** What a row contributes to a bucket *)

(** The column each lift is read from. *)
Definition COLUMNS : list (string * string) :=
  [("squat", "Best3SquatKg"); ("bench", "Best3BenchKg");
   ("deadlift", "Best3DeadliftKg")].

Section Contribution.
Variable float : string -> option Q.

(** The sex key and weight class a row is filed under, when it has a
    bodyweight that parses and a sex of ["m"] or ["f"]. *)
Definition row_bucket (r : row) : option (string * string) :=
  let bodyweight_str := cell r "BodyweightKg" in
  if truthy bodyweight_str then
    match float bodyweight_str with
    | Some bodyweight =>
        let sex := lower (cell r "Sex") in
        if String.eqb sex "m" || String.eqb sex "f" then
          let is_male := String.eqb sex "m" in
          Some (if is_male then "male" else "female",
                get_weight_class bodyweight is_male)
        else None
    | None => None
    end
  else None.

(** The value of a lift cell that counts: not empty, not starting with a
    minus sign, parsing, and positive. *)
Definition valid_lift (raw : string) : option Q :=
  if truthy raw && negb (startswith raw "-") then
    match float raw with
    | Some val => if ltb 0 val then Some val else None
    | None => None
    end
  else None.

(** The values a row adds to the all-ages list of a bucket: at most one. *)
Definition row_values (r : row) (sex_key weight_class_key lift : string) : list Q :=
  match row_bucket r, dict_get COLUMNS lift with
  | Some (s, w), Some column =>
      if String.eqb s sex_key && String.eqb w weight_class_key
      then option_list (valid_lift (cell r column))
      else []
  | _, _ => []
  end.

(** The values a row adds to the list of a bucket and an age bracket. *)
Definition row_values_in_bracket (r : row)
    (sex_key weight_class_key age_bracket lift : string) : list Q :=
  match row_age_bracket float r with
  | Some b =>
      if truthy b && String.eqb b age_bracket
      then row_values r sex_key weight_class_key lift
      else []
  | None => []
  end.
End Contribution.

(** The labels [get_weight_class] can return for one sex: every threshold,
    and the largest one with a ["+"]. *)
Definition class_labels (is_male : bool) : list string :=
  (map str (weight_classes_of is_male)
   ++ [str_plus (List.last (weight_classes_of is_male) 0)])%list.

(** A row is counted as a lifter when it is filed under a bucket and at
    least one of its three lift cells holds a valid value. *)
Definition row_included (float : string -> option Q) (r : row) : bool :=
  match row_bucket float r with
  | Some _ =>
      existsb (fun column => bool_decide (is_Some (valid_lift float (cell r column))))
              (map snd COLUMNS)
  | None => false
  end.

(** *** The result in closed form *)

Section Expected.
Variable t : tables.
Variable sex_key : string.

(** The lifts of a weight class with at least 50 values over all ages. *)
Definition all_ages_table (weight_class_key : string) : list (string * value) :=
  omap (fun lift =>
          let values := all_ages_values t sex_key weight_class_key lift in
          if 50 <=? len values then Some (lift, lift_stat values) else None)
       LIFTS.

(** The lifts of an age bracket with at least 30 values. *)
Definition age_table (weight_class_key age_bracket : string)
  : list (string * value) :=
  omap (fun lift =>
          let values :=
            by_age_values t sex_key weight_class_key age_bracket lift in
          if 30 <=? len values then Some (lift, lift_stat values) else None)
       LIFTS.

(** The age brackets of a weight class with at least one such lift. *)
Definition by_age_table (weight_class_key : string) : list (string * value) :=
  omap (fun age_bracket =>
          match age_table weight_class_key age_bracket with
          | [] => None
          | age_data => Some (age_bracket, VDict age_data)
          end)
       bracket_names.

(** The weight classes of a sex with at least one lift over all ages. *)
Definition class_table : list (string * value) :=
  omap (fun weight_class_key =>
          match all_ages_table weight_class_key with
          | [] => None
          | all_ages =>
              Some (weight_class_key,
                    VDict [("all_ages", VDict all_ages);
                           ("by_age", VDict (by_age_table weight_class_key))])
          end)
       (class_keys sex_key).
End Expected.

(** A class is emitted when its key is one the loop tries and one of its
    lifts has 50 values. *)
Definition class_emitted (t : tables) (sex_key wck : string) : bool :=
  existsb (String.eqb wck) (class_keys sex_key)
  && match all_ages_table t sex_key wck with [] => false | _ => true end.

Definition expected_result (t : tables) : list (string * value) :=
  [("metadata", metadata t);
   ("male", VDict (class_table t "male"));
   ("female", VDict (class_table t "female"))].

(** ** Fetcher: the choice of the archive member

    [download_data] fetches and unpacks an archive; what it decides is
    which member to read.  [names] is [zf.namelist()]. *)

(** [s.endswith(suffix)] *)
Definition endswith (s suffix : string) : bool :=
  let n := String.length s in
  let m := String.length suffix in
  (m <=? n)%nat && String.eqb (String.substring (n - m) m s) suffix.

(** [sub in s] *)
Fixpoint occurs_in (sub s : string) : bool :=
  String.prefix sub s
  || match s with
     | EmptyString => false
     | String _ s' => occurs_in sub s'
     end.

Definition is_csv (f : string) : bool := endswith f ".csv".

Definition is_main_csv (f : string) : bool :=
  endswith f ".csv" && occurs_in "openpowerlifting" (lower f).

(** Lines 69-77: the member whose name ends in [.csv] and mentions
    [openpowerlifting], else any member ending in [.csv]; [None] is the
    [ValueError] raised when there is none. *)
Definition choose_csv (names : list string) : option string :=
  let csv_files := List.filter is_main_csv names in
  let csv_files :=
    match csv_files with
    | [] => List.filter is_csv names
    | _ => csv_files
    end in
  match csv_files with
  | [] => None
  | csv_file :: _ => Some csv_file
  end.


(** * Properties *)

(** ** Python lists *)

Section ListFacts.
Context {A : Type}.
Implicit Types l : list A.

Lemma len_nonneg l : 0 <= len l.
Proof. unfold len. lia. Qed.

Lemma len_nil_iff l : len l = 0 <-> l = [].
Proof.
  unfold len. destruct l as [| a l]; [done |].
  split; [| done]. rewrite length_cons. intros H. exfalso. lia.
Qed.

Lemma getitem_nonneg l i : 0 <= i -> getitem l i = l !! Z.to_nat i.
Proof.
  intros Hi. unfold getitem.
  destruct (Z.leb_spec 0 i); [done | lia].
Qed.

Lemma getitem_in_range l i :
  0 <= i < len l -> exists x, getitem l i = Some x /\ l !! Z.to_nat i = Some x.
Proof.
  intros [Hi Hlt]. rewrite getitem_nonneg by done.
  destruct (lookup_lt_is_Some_2 l (Z.to_nat i)) as [x Hx].
  - unfold len in Hlt. lia.
  - exists x. by split.
Qed.

Lemma getitem_last l : l <> [] -> getitem l (-1) = last l.
Proof.
  intros Hne. unfold getitem.
  assert (0 < len l).
  { pose proof (len_nonneg l).
    destruct (Z.eq_dec (len l) 0) as [E | E]; [| lia].
    by apply len_nil_iff in E. }
  destruct (Z.leb_spec 0 (-1)); [lia |].
  destruct (Z.leb_spec (- len l) (-1)); [| lia].
  rewrite last_lookup. f_equal. unfold len. lia.
Qed.

Lemma last_is_Some l : l <> [] -> exists z, last l = Some z.
Proof.
  intros Hne. destruct (last l) as [z |] eqn:E; [by exists z |].
  apply last_None in E. done.
Qed.
End ListFacts.

(** ** [sorted] *)

Lemma ltb_lt (x y : Q) : ltb x y = true <-> (x < y)%Q.
Proof.
  unfold ltb. rewrite negb_true_iff.
  destruct (Qle_bool y x) eqn:E.
  - apply Qle_bool_iff in E. split; [done |].
    intros Hlt. exfalso. eapply Qlt_not_le; eauto.
  - split; [| done]. intros _. apply Qnot_le_lt.
    intros Hle. apply Qle_bool_iff in Hle. congruence.
Qed.

Lemma ltb_ge (x y : Q) : ltb x y = false <-> (y <= x)%Q.
Proof.
  unfold ltb. rewrite negb_false_iff. apply Qle_bool_iff.
Qed.

Lemma ltb_proper (x x' y y' : Q) : x == x' -> y == y' -> ltb x y = ltb x' y'.
Proof.
  intros Hx Hy. unfold ltb. f_equal. by apply Qleb_comp.
Qed.

Lemma insort_perm (x : Q) (l : list Q) : Permutation (insort x l) (x :: l).
Proof.
  induction l as [| y l IH]; simpl; [done |].
  destruct (ltb y x); [| done].
  rewrite IH. apply perm_swap.
Qed.

Lemma sorted_perm (l : list Q) : Permutation (sorted l) l.
Proof.
  induction l as [| x l IH]; simpl; [done |].
  rewrite insort_perm. by constructor.
Qed.

Lemma sorted_length (l : list Q) : length (sorted l) = length l.
Proof. apply Permutation_length, sorted_perm. Qed.

Lemma sorted_len (l : list Q) : len (sorted l) = len l.
Proof. unfold len. by rewrite sorted_length. Qed.

Lemma insort_sorted (x : Q) (l : list Q) :
  StronglySorted Qle l -> StronglySorted Qle (insort x l).
Proof.
  induction 1 as [| y l Hs IH Hy]; simpl.
  - repeat constructor.
  - destruct (ltb y x) eqn:E.
    + constructor; [done |].
      rewrite insort_perm. constructor; [| done].
      apply ltb_lt in E. by apply Qlt_le_weak.
    + apply ltb_ge in E. constructor.
      * by constructor.
      * constructor; [done |].
        eapply Forall_impl; [exact Hy |].
        intros z Hz. simpl in Hz. by apply Qle_trans with y.
Qed.

Lemma sorted_ascending (l : list Q) : StronglySorted Qle (sorted l).
Proof.
  induction l as [| x l IH]; simpl; [constructor | by apply insort_sorted].
Qed.

(** The last element of an ascending list bounds the list. *)
Lemma ascending_last_max (l : list Q) (z : Q) :
  StronglySorted Qle l -> last l = Some z -> Forall (fun x => (x <= z)%Q) l.
Proof.
  induction 1 as [| y l Hs IH Hy]; intros Hlast; [constructor |].
  destruct l as [| y' l'].
  - simpl in Hlast. injection Hlast as <-. repeat constructor. apply Qle_refl.
  - assert (Hl : last (y' :: l') = Some z) by exact Hlast.
    specialize (IH Hl). constructor; [| done].
    apply Forall_cons in Hy as [Hyy' _].
    apply Forall_cons in IH as [Hy'z _].
    by apply Qle_trans with y'.
Qed.

(** Reordering the input changes [sorted] at most between numerically
    equal elements. *)
Lemma insort_proper (x : Q) (l1 l2 : list Q) :
  Forall2 Qeq l1 l2 -> Forall2 Qeq (insort x l1) (insort x l2).
Proof.
  induction 1 as [| y1 y2 l1 l2 Hy Hl IH]; simpl.
  - constructor; [reflexivity | constructor].
  - rewrite (ltb_proper y1 y2 x x Hy (Qeq_refl x)).
    destruct (ltb y2 x).
    + by constructor.
    + constructor; [reflexivity |]. by constructor.
Qed.

Lemma Forall2_Qeq_refl (l : list Q) : Forall2 Qeq l l.
Proof. induction l; constructor; [reflexivity | done]. Qed.

Lemma Forall2_Qeq_trans (l1 l2 l3 : list Q) :
  Forall2 Qeq l1 l2 -> Forall2 Qeq l2 l3 -> Forall2 Qeq l1 l3.
Proof.
  intros H12. revert l3.
  induction H12 as [| x y l1 l2 Hxy _ IH]; intros l3 H23; inversion H23; subst.
  - constructor.
  - constructor; [by etransitivity | by apply IH].
Qed.

(** Decide the comparisons of a goal and turn them into facts on [Q]. *)
Ltac split_ltb :=
  repeat match goal with
         | |- context [ltb ?a ?b] =>
             let E := fresh "E" in
             destruct (ltb a b) eqn:E;
             [apply ltb_lt in E | apply ltb_ge in E]
         end.

Ltac close_Qeq_lists :=
  repeat first
    [ apply Forall2_Qeq_refl
    | assumption
    | constructor; [lra |] ].

Lemma insort_commute (x y : Q) (l : list Q) :
  Forall2 Qeq (insort x (insort y l)) (insort y (insort x l)).
Proof.
  induction l as [| z l IH]; simpl.
  - split_ltb; solve [exfalso; lra | close_Qeq_lists].
  - destruct (ltb z y) eqn:Ezy, (ltb z x) eqn:Ezx; simpl; rewrite ?Ezy, ?Ezx;
      [apply ltb_lt in Ezy, Ezx | apply ltb_lt in Ezy; apply ltb_ge in Ezx
      | apply ltb_ge in Ezy; apply ltb_lt in Ezx | apply ltb_ge in Ezy, Ezx];
      split_ltb; solve [exfalso; lra | close_Qeq_lists].
Qed.

Lemma sorted_proper (l1 l2 : list Q) :
  Permutation l1 l2 -> Forall2 Qeq (sorted l1) (sorted l2).
Proof.
  induction 1 as [| x l1 l2 _ IH | x y l | l1 l2 l3 _ IH12 _ IH23]; simpl.
  - constructor.
  - by apply insort_proper.
  - apply insort_commute.
  - by apply Forall2_Qeq_trans with (sorted l2).
Qed.

(** ** [calculate_percentile] *)

Lemma int_floor (x : Q) : (0 <= x)%Q -> int x = Qfloor x.
Proof.
  destruct x as [n d]. unfold Qle, int, Qfloor. simpl. intros Hn.
  apply Z.quot_div_nonneg; lia.
Qed.

Lemma fractional_index_nonneg (N p : Z) :
  1 <= N -> 0 <= p -> (0 <= fractional_index N p)%Q.
Proof.
  intros HN Hp. unfold fractional_index, Qle, Qdiv, Qmult, Qinv, inject_Z.
  simpl. nia.
Qed.

Lemma fractional_index_floor (N p : Z) :
  Qfloor (fractional_index N p) = ((N - 1) * p) / 100.
Proof. unfold fractional_index. symmetry. apply Zdiv_Qdiv. Qed.

Lemma PERCENTILES_range (p : Z) : In p PERCENTILES -> 5 <= p <= 99.
Proof. unfold PERCENTILES. simpl. intros H. lia. Qed.

Lemma getitem_proper (s1 s2 : list Q) (i : Z) :
  Forall2 Qeq s1 s2 -> option_Forall2 Qeq (getitem s1 i) (getitem s2 i).
Proof.
  intros H. unfold getitem, len. rewrite (Forall2_length _ _ _ H).
  destruct (0 <=? i); [by apply Forall2_lookup |].
  destruct (- Z.of_nat (length s2) <=? i); [by apply Forall2_lookup | constructor].
Qed.

(** On a non-empty list and a non-negative percentile the truncation
    [int(index)] is the floor of the fractional index. *)
Lemma calculate_percentile_nonempty (values : list Q) (p : Z) :
  values <> [] ->
  0 <= p ->
  calculate_percentile values p =
    let s := sorted values in
    let i := fractional_index (len values) p in
    let lower := Qfloor i in
    if len values <=? lower + 1 then getitem s (-1)
    else
      a ← getitem s lower;
      b ← getitem s (lower + 1);
      Some (a * (1 - (i - inject_Z lower)) + b * (i - inject_Z lower))%Q.
Proof.
  intros Hne Hp.
  assert (HN : 1 <= len values).
  { pose proof (len_nonneg values).
    destruct (Z.eq_dec (len values) 0) as [E | E]; [| lia].
    by apply len_nil_iff in E. }
  unfold calculate_percentile. destruct values as [| v values']; [done |].
  rewrite sorted_len. fold (fractional_index (len (v :: values')) p).
  rewrite int_floor by (by apply fractional_index_nonneg).
  done.
Qed.

(** C9.  For every percentile [p], [calculate_percentile] applied to the
    empty list returns [0.0]; it does not raise. *)
Theorem calculate_percentile_empty (p : Z) :
  calculate_percentile [] p = Some 0%Q.
Proof. reflexivity. Qed.

(** C1.  For a non-empty list of [N] values and a percentile [p] of the
    configured set, let [s] be the values sorted ascending, [i] the
    fractional index [(N-1)*p/100], [lower = floor i] and [w = i - lower].
    Then [calculate_percentile] returns [s[lower]*(1-w) + s[lower+1]*w]
    when the ceiling index [lower+1] is at most [N-1], and the last, hence
    largest, element of [s] when it exceeds [N-1]. *)
Theorem calculate_percentile_interpolates (values : list Q) (p : Z) :
  values <> [] ->
  In p PERCENTILES ->
  let s := sorted values in
  let N := len values in
  let i := fractional_index N p in
  let lower := Qfloor i in
  let w := (i - inject_Z lower)%Q in
  Permutation s values /\ StronglySorted Qle s /\
  0 <= lower /\ (0 <= w)%Q /\ (w < 1)%Q /\
  (lower + 1 <= N - 1 ->
   exists a b,
     s !! Z.to_nat lower = Some a /\
     s !! Z.to_nat (lower + 1) = Some b /\
     calculate_percentile values p = Some (a * (1 - w) + b * w)%Q) /\
  (lower + 1 > N - 1 ->
   exists z,
     last s = Some z /\
     Forall (fun x => (x <= z)%Q) values /\
     calculate_percentile values p = Some z).
Proof.
  intros Hne Hp s N i lower w.
  assert (HN : 1 <= N).
  { subst N. pose proof (len_nonneg values).
    destruct (Z.eq_dec (len values) 0) as [E | E]; [| lia].
    by apply len_nil_iff in E. }
  apply PERCENTILES_range in Hp.
  assert (Hi : (0 <= i)%Q) by (apply fractional_index_nonneg; lia).
  assert (Hlow : 0 <= lower).
  { subst lower. rewrite <- (Qfloor_Z 0). by apply Qfloor_resp_le. }
  assert (Hw0 : (0 <= w)%Q).
  { subst w lower. pose proof (Qfloor_le i). lra. }
  assert (Hw1 : (w < 1)%Q).
  { subst w lower. pose proof (Qlt_floor i) as H.
    rewrite inject_Z_plus in H. change (inject_Z 1) with 1%Q in H. lra. }
  assert (Hs : s <> []).
  { intros E. apply Hne. apply Permutation_nil. rewrite <- E.
    apply sorted_perm. }
  assert (Hcode : calculate_percentile values p =
                  if N <=? lower + 1 then getitem s (-1)
                  else a ← getitem s lower; b ← getitem s (lower + 1);
                       Some (a * (1 - w) + b * w)%Q).
  { rewrite calculate_percentile_nonempty by (done || lia). done. }
  split; [apply sorted_perm |].
  split; [apply sorted_ascending |].
  do 3 (split; [done |]).
  split.
  - intros Hin. rewrite Hcode.
    destruct (Z.leb_spec N (lower + 1)); [lia |].
    destruct (getitem_in_range s lower) as (a & Ha & Ha').
    { subst s. rewrite sorted_len. fold N. lia. }
    destruct (getitem_in_range s (lower + 1)) as (b & Hb & Hb').
    { subst s. rewrite sorted_len. fold N. lia. }
    exists a, b. rewrite Ha, Hb. done.
  - intros Hout. rewrite Hcode.
    destruct (Z.leb_spec N (lower + 1)); [| lia].
    rewrite getitem_last by done.
    destruct (last_is_Some s Hs) as [z Hz]. exists z.
    split; [done |]. split; [| done].
    eapply Permutation_Forall; [apply sorted_perm |].
    apply ascending_last_max; [apply sorted_ascending | done].
Qed.

(** For the configured percentiles the clamp is reached by one-element
    lists only. *)
Lemma clamp_only_singleton (N p : Z) :
  1 <= N ->
  In p PERCENTILES ->
  Qfloor (fractional_index N p) + 1 > N - 1 <-> N = 1.
Proof.
  intros HN Hp. apply PERCENTILES_range in Hp. rewrite fractional_index_floor.
  split.
  - intros Hclamp. destruct (Z.eq_dec N 1) as [-> | Hne]; [done |]. exfalso.
    assert (Z.div ((N - 1) * p) 100 < N - 1); [| lia].
    apply Z.div_lt_upper_bound; [lia |].
    apply Z.le_lt_trans with ((N - 1) * 99); [| lia].
    apply Z.mul_le_mono_nonneg_l; lia.
  - intros ->. replace ((1 - 1) * p) with 0 by lia. rewrite Z.div_0_l; lia.
Qed.

(** C8.  Reordering the values never changes the result of
    [calculate_percentile]: on a permutation of the list it fails exactly
    when it failed before, and otherwise returns the same number. *)
Theorem calculate_percentile_permutation (l1 l2 : list Q) (p : Z) :
  Permutation l1 l2 ->
  option_Forall2 Qeq (calculate_percentile l1 p) (calculate_percentile l2 p).
Proof.
  intros Hperm.
  destruct l1 as [| x1 l1].
  { apply Permutation_nil in Hperm. subst. constructor. reflexivity. }
  destruct l2 as [| x2 l2].
  { symmetry in Hperm. by apply Permutation_nil in Hperm. }
  pose proof (sorted_proper _ _ Hperm) as Hs.
  unfold calculate_percentile.
  set (s1 := sorted (x1 :: l1)) in *. set (s2 := sorted (x2 :: l2)) in *.
  assert (Hlen : len s1 = len s2).
  { unfold len. by rewrite (Forall2_length _ _ _ Hs). }
  rewrite Hlen.
  set (index := (inject_Z ((len s2 - 1) * p) / inject_Z 100)%Q).
  destruct (len s2 <=? int index + 1); [by apply getitem_proper |].
  destruct (getitem_proper s1 s2 (int index) Hs) as [a1 a2 Ha |];
    [| constructor].
  destruct (getitem_proper s1 s2 (int index + 1) Hs) as [b1 b2 Hb |];
    [| constructor].
  constructor. by rewrite Ha, Hb.
Qed.

(** ** Classifier *)

Lemma leb_le (x y : Q) : leb x y = true <-> (x <= y)%Q.
Proof. apply Qle_bool_iff. Qed.

Lemma leb_gt (x y : Q) : leb x y = false <-> (y < x)%Q.
Proof.
  unfold leb. destruct (Qle_bool x y) eqn:E.
  - apply Qle_bool_iff in E. split; [done |]. intros H. exfalso. lra.
  - split; [| done]. intros _. apply Qnot_le_lt. intros H.
    apply Qle_bool_iff in H. congruence.
Qed.

Lemma inject_Z_le (a b : Z) : (inject_Z a <= inject_Z b)%Q <-> a <= b.
Proof. unfold Qle, inject_Z. simpl. lia. Qed.

Lemma first_class_smallest (bodyweight : Q) (classes : list Z) (wc : Z) :
  StronglySorted Z.le classes ->
  In wc classes ->
  (bodyweight <= inject_Z wc)%Q ->
  (forall wc', In wc' classes -> (bodyweight <= inject_Z wc')%Q -> wc <= wc') ->
  first_class bodyweight classes = Some wc.
Proof.
  induction 1 as [| c rest Hs IH Hc]; intros Hin Hle Hmin; [done |].
  simpl. destruct (leb bodyweight (inject_Z c)) eqn:E.
  - apply leb_le in E. f_equal.
    assert (wc <= c) by (apply Hmin; [by left | done]).
    destruct Hin as [-> | Hin]; [done |].
    rewrite Forall_forall in Hc. specialize (Hc wc).
    assert (c <= wc) by (apply Hc; by apply list_elem_of_In).
    lia.
  - apply leb_gt in E.
    destruct Hin as [-> | Hin]; [exfalso; lra |].
    apply IH; [done | done |].
    intros wc' Hin' Hle'. apply Hmin; [by right | done].
Qed.

Lemma first_class_none (bodyweight : Q) (classes : list Z) :
  (forall wc, In wc classes -> (inject_Z wc < bodyweight)%Q) ->
  first_class bodyweight classes = None.
Proof.
  induction classes as [| c rest IH]; intros Hall; [done |].
  simpl. assert (E : leb bodyweight (inject_Z c) = false).
  { apply leb_gt. apply Hall. by left. }
  rewrite E. apply IH. intros wc Hin. apply Hall. by right.
Qed.

Lemma weight_classes_ascending (is_male : bool) :
  StronglySorted Z.le (weight_classes_of is_male).
Proof.
  destruct is_male; unfold weight_classes_of, MALE_WEIGHT_CLASSES,
    FEMALE_WEIGHT_CLASSES; repeat (constructor; [| repeat (constructor; [lia |]); constructor ]);
    constructor.
Qed.

(** C4.  The weight-class label is the string of the smallest configured
    threshold that is at least the bodyweight; when the bodyweight exceeds
    every threshold it is the largest threshold followed by ["+"].  The
    thresholds are 59..140 for men and 47..100 for women. *)
Theorem get_weight_class_smallest (bodyweight : Q) (is_male : bool) :
  let classes := weight_classes_of is_male in
  weight_classes_of true = [59; 66; 74; 83; 93; 105; 120; 140] /\
  weight_classes_of false = [47; 52; 57; 63; 69; 76; 84; 100] /\
  (forall wc,
      In wc classes ->
      (bodyweight <= inject_Z wc)%Q ->
      (forall wc', In wc' classes -> (bodyweight <= inject_Z wc')%Q -> wc <= wc') ->
      get_weight_class bodyweight is_male = str wc) /\
  ((forall wc, In wc classes -> (inject_Z wc < bodyweight)%Q) ->
   exists top,
     In top classes /\ (forall wc, In wc classes -> wc <= top) /\
     get_weight_class bodyweight is_male = str top +:+ "+").
Proof.
  intros classes. split; [done |]. split; [done |]. split.
  - intros wc Hin Hle Hmin. unfold get_weight_class. fold classes.
    rewrite (first_class_smallest bodyweight classes wc);
      [done | apply weight_classes_ascending | done | done | done].
  - intros Hall. unfold get_weight_class. fold classes.
    rewrite (first_class_none bodyweight classes Hall).
    exists (List.last classes 0). split; [| split; [| done]].
    + subst classes. destruct is_male; simpl; tauto.
    + subst classes. intros wc Hin. destruct is_male; simpl in *; lia.
Qed.

Lemma first_bracket_some (age : Q) (brackets : list (Z * Z * string)) (b : string) :
  first_bracket age brackets = Some b <->
  exists (k : nat) (ab : Z * Z * string),
    brackets !! k = Some ab /\ ab.2 = b /\ in_range age ab /\
    forall (j : nat) (ab' : Z * Z * string),
      (j < k)%nat -> brackets !! j = Some ab' -> ~ in_range age ab'.
Proof.
  induction brackets as [| [[mn mx] lbl] rest IH]; simpl.
  - split; [done |]. by intros (k & ab & Hk & _).
  - destruct (leb (inject_Z mn) age && leb age (inject_Z mx)) eqn:E.
    + apply andb_true_iff in E as [E1 E2]. apply leb_le in E1, E2.
      split.
      * intros [= <-]. exists 0%nat, (mn, mx, lbl).
        repeat split; [done | done |]. intros j ab' Hj. lia.
      * intros (k & ab & Hk & Hlbl & Hin & Hfirst).
        destruct k as [| k].
        { simpl in Hk. injection Hk as <-. simpl in Hlbl. by subst. }
        exfalso. apply (Hfirst 0%nat (mn, mx, lbl)); [lia | done |].
        by split.
    + assert (Hout : ~ in_range age (mn, mx, lbl)).
      { intros [H1 H2]. simpl in H1, H2.
        apply leb_le in H1, H2. rewrite H1, H2 in E. done. }
      rewrite IH. split.
      * intros (k & ab & Hk & Hlbl & Hin & Hfirst).
        exists (S k), ab. repeat split; [done | done | apply Hin | apply Hin |].
        intros j ab' Hj Hj'. destruct j as [| j].
        { simpl in Hj'. injection Hj' as <-. done. }
        apply (Hfirst j); [lia | done].
      * intros (k & ab & Hk & Hlbl & Hin & Hfirst).
        destruct k as [| k].
        { simpl in Hk. injection Hk as <-. done. }
        exists k, ab. repeat split; [done | done | apply Hin | apply Hin |].
        intros j ab' Hj Hj'. apply (Hfirst (S j)); [lia | done].
Qed.

Lemma first_bracket_none (age : Q) (brackets : list (Z * Z * string)) :
  first_bracket age brackets = None <->
  forall ab, In ab brackets -> ~ in_range age ab.
Proof.
  induction brackets as [| [[mn mx] lbl] rest IH]; simpl.
  - split; [by intros _ ab [] | done].
  - destruct (leb (inject_Z mn) age && leb age (inject_Z mx)) eqn:E.
    + apply andb_true_iff in E as [E1 E2]. apply leb_le in E1, E2.
      split; [done |]. intros Hall. exfalso.
      apply (Hall (mn, mx, lbl)); [by left | by split].
    + rewrite IH. split.
      * intros Hall ab [<- | Hin]; [| by apply Hall].
        intros [H1 H2]. simpl in H1, H2.
        apply leb_le in H1, H2. rewrite H1, H2 in E. done.
      * intros Hall ab Hin. apply Hall. by right.
Qed.

Lemma get_age_bracket_first (age : Q) (b : string) :
  get_age_bracket age = Some b <-> first_containing age b.
Proof. apply first_bracket_some. Qed.

Lemma get_age_bracket_outside (age : Q) :
  (age < 0 \/ 999 < age)%Q -> get_age_bracket age = None.
Proof.
  intros Hout. apply first_bracket_none. intros ab Hin [H1 H2].
  unfold AGE_BRACKETS in Hin. simpl in Hin.
  assert (H0 : (inject_Z 0 <= inject_Z ab.1.1)%Q /\ (inject_Z ab.1.2 <= inject_Z 999)%Q).
  { rewrite !inject_Z_le.
    destruct Hin as [<- | [<- | [<- | [<- | [<- | [<- | []]]]]]]; simpl; lia. }
  destruct H0 as [H0 H999].
  change (inject_Z 0) with 0%Q in H0. change (inject_Z 999) with 999%Q in H999.
  destruct Hout; lra.
Qed.

Section AgeBracket.
Variable float : string -> option Q.

Lemma row_age_bracket_unfold (r : row) :
  row_age_bracket float r =
    if truthy (cell r "Age")
    then age ← float (cell r "Age"); get_age_bracket age
    else None.
Proof.
  unfold row_age_bracket. destruct (truthy (cell r "Age")); [| done].
  by destruct (float (cell r "Age")).
Qed.

Lemma truthy_false (s : string) : truthy s = false <-> s = "".
Proof. destruct s; simpl; split; congruence. Qed.

(** C5, as amended.  The age bracket assigned to a record is the label of
    the first configured range containing its age, and every record whose
    age lies in some range is assigned one.  A record receives no age
    bracket when its age field is missing or unparseable, and also when
    the field parses to an age below 0 or above 999. *)
Theorem row_age_bracket_correct (r : row) :
  let age_str := cell r "Age" in
  (forall b,
      row_age_bracket float r = Some b ->
      exists age,
        age_str <> "" /\ float age_str = Some age /\ first_containing age b) /\
  (forall age,
      age_str <> "" ->
      float age_str = Some age ->
      (exists ab, In ab AGE_BRACKETS /\ in_range age ab) ->
      exists b, row_age_bracket float r = Some b /\ first_containing age b) /\
  (age_str = "" \/ float age_str = None -> row_age_bracket float r = None) /\
  (forall age,
      float age_str = Some age ->
      (age < 0 \/ 999 < age)%Q ->
      row_age_bracket float r = None).
Proof.
  intros age_str. rewrite row_age_bracket_unfold. fold age_str.
  repeat split.
  - intros b Hb. destruct (truthy age_str) eqn:Et; [| done].
    destruct (float age_str) as [age |] eqn:Ef; [| done].
    exists age. split; [| split; [done |]].
    + intros E. apply truthy_false in E. congruence.
    + by apply get_age_bracket_first.
  - intros age Hne Hf (ab & Hin & Hrange).
    destruct (truthy age_str) eqn:Et; [| by apply truthy_false in Et].
    rewrite Hf. simpl.
    destruct (get_age_bracket age) as [b |] eqn:Eb.
    + exists b. split; [done |]. by apply get_age_bracket_first.
    + exfalso. unfold get_age_bracket in Eb.
      rewrite first_bracket_none in Eb. by apply (Eb ab).
  - intros [E | E].
    + apply truthy_false in E. by rewrite E.
    + rewrite E. by destruct (truthy age_str).
  - intros age Hf Hout. rewrite Hf. simpl.
    rewrite (get_age_bracket_outside age Hout). by destruct (truthy age_str).
Qed.
End AgeBracket.

(** ** Dictionaries and loops *)

Section DictFacts.
Context {V : Type}.
Implicit Types (d : list (string * V)) (k : string) (v : V).

Lemma dict_get_In d k v : dict_get d k = Some v -> In (k, v) d.
Proof.
  induction d as [| [k' v'] d IH]; simpl; [done |].
  destruct (String.eqb k' k) eqn:E.
  - apply String.eqb_eq in E. intros [= ->]. left. by subst.
  - intros H. right. by apply IH.
Qed.

Lemma dict_set_Forall (P : string * V -> Prop) d k v :
  Forall P d -> P (k, v) -> Forall P (dict_set d k v).
Proof.
  intros Hd Hkv. induction Hd as [| [k' v'] d Hk' Hd IH]; simpl.
  - by repeat constructor.
  - destruct (String.eqb k' k) eqn:E.
    + apply String.eqb_eq in E. subst. by constructor.
    + by constructor.
Qed.

Lemma dict_set_nonempty d k v : dict_set d k v <> [].
Proof.
  destruct d as [| [k' v'] d]; simpl; [done |].
  by destruct (String.eqb k' k).
Qed.

Lemma dict_set_fresh d k v : ~ In k (keys d) -> dict_set d k v = (d ++ [(k, v)])%list.
Proof.
  induction d as [| [k' v'] d IH]; simpl; [done |].
  intros Hfresh. destruct (String.eqb k' k) eqn:E.
  - apply String.eqb_eq in E. exfalso. apply Hfresh. by left.
  - f_equal. apply IH. intros Hin. apply Hfresh. by right.
Qed.
End DictFacts.

Section LoopFacts.
Context {A S : Type}.

(** A loop whose body keeps an invariant, and does not raise while it
    holds, runs to its end and establishes it. *)
Lemma for_each_invariant (I : S -> Prop) (body : A -> S -> option S)
    (l : list A) (s : S) :
  I s ->
  (forall a s0, In a l -> I s0 -> exists s1, body a s0 = Some s1 /\ I s1) ->
  exists s', for_each body l s = Some s' /\ I s'.
Proof.
  revert s. induction l as [| a l IH]; intros s Hs Hbody; simpl.
  - by exists s.
  - destruct (Hbody a s) as (s1 & -> & Hs1); [by left | done |].
    apply IH; [done |]. intros a' s0 Hin. apply Hbody. by right.
Qed.
End LoopFacts.

(** A loop that sets a fresh key at every turn builds the dictionary in
    the order of the loop. *)
Lemma for_each_dict_set {A V : Type} (body : A -> list (string * V) -> option (list (string * V)))
    (key : A -> string) (f : A -> V) (l : list A) (d0 : list (string * V)) :
  (forall a d, In a l -> body a d = Some (dict_set d (key a) (f a))) ->
  List.NoDup (map key l) ->
  (forall a, In a l -> ~ In (key a) (keys d0)) ->
  for_each body l d0 = Some (d0 ++ map (fun a => (key a, f a)) l)%list.
Proof.
  revert d0. induction l as [| a l IH]; intros d0 Hbody Hnodup Hfresh; simpl.
  - by rewrite app_nil_r.
  - rewrite Hbody by (by left).
    rewrite dict_set_fresh by (apply Hfresh; by left).
    apply List.NoDup_cons_iff in Hnodup as [Ha Hnodup].
    rewrite IH.
    + by rewrite <- app_assoc.
    + intros a' d Hin. apply Hbody. by right.
    + done.
    + intros a' Hin. unfold keys. rewrite map_app, in_app_iff. simpl.
      intros [Hd | [Heq | []]].
      * apply (Hfresh a'); [by right | done].
      * apply Ha. rewrite Heq. by apply in_map.
Qed.

(** ** The statistic of one bucket *)

Lemma calculate_percentile_defined (values : list Q) (p : Z) :
  values <> [] ->
  0 <= p ->
  calculate_percentile values p = Some (percentile_value values p).
Proof.
  intros Hne Hp.
  assert (is_Some (calculate_percentile values p)) as [v Hv];
    [| by (unfold percentile_value; rewrite Hv)].
  rewrite calculate_percentile_nonempty by done. cbv zeta.
  assert (Hs : sorted values <> []).
  { intros E. apply Hne. apply Permutation_nil. rewrite <- E. apply sorted_perm. }
  assert (Hlow : 0 <= Qfloor (fractional_index (len values) p)).
  { rewrite fractional_index_floor. apply Z.div_pos; [| lia].
    pose proof (len_nonneg values).
    destruct (Z.eq_dec (len values) 0) as [E | E]; [by apply len_nil_iff in E | nia]. }
  destruct (Z.leb_spec (len values) (Qfloor (fractional_index (len values) p) + 1)).
  - rewrite getitem_last by done. destruct (last_is_Some _ Hs) as [z ->]. by exists z.
  - destruct (getitem_in_range (sorted values)
                (Qfloor (fractional_index (len values) p))) as (a & -> & _).
    { rewrite sorted_len. lia. }
    destruct (getitem_in_range (sorted values)
                (Qfloor (fractional_index (len values) p) + 1)) as (b & -> & _).
    { rewrite sorted_len. lia. }
    simpl. eauto.
Qed.

Lemma percentile_keys_distinct : List.NoDup (map str PERCENTILES).
Proof.
  apply NoDup_ListNoDup.
  apply (bool_decide_unpack (NoDup (map str PERCENTILES))). by vm_compute.
Qed.

Lemma percentile_dict_spec (values : list Q) :
  values <> [] ->
  percentile_dict values =
    Some (map (fun p => (str p, VFloat (round1 (percentile_value values p))))
              PERCENTILES).
Proof.
  intros Hne. unfold percentile_dict.
  rewrite (for_each_dict_set _ str
             (fun p => VFloat (round1 (percentile_value values p)))).
  - done.
  - intros p d Hin. apply PERCENTILES_range in Hin.
    rewrite calculate_percentile_defined by (done || lia). done.
  - apply percentile_keys_distinct.
  - intros p _ [].
Qed.

Lemma lift_entry_spec (values : list Q) :
  values <> [] -> lift_entry values = Some (lift_stat values).
Proof.
  intros Hne. unfold lift_entry. by rewrite percentile_dict_spec.
Qed.

Lemma len_positive_nonempty {A : Type} (l : list A) (n : Z) :
  0 < n -> n <= len l -> l <> [].
Proof. intros Hn Hle ->. unfold len in Hle. simpl in Hle. lia. Qed.

(** ** The generator keeps [result_ok] *)

Section GenerateFacts.
Variable t : tables.
Variable sex_key : string.
Variable weight_class_key : string.

Lemma all_ages_loop :
  exists all_ages,
    for_each (all_ages_body t sex_key weight_class_key) LIFTS
      [("all_ages", VDict []); ("by_age", VDict [])]
    = Some [("all_ages", VDict all_ages); ("by_age", VDict [])] /\
    Forall (all_ages_entry t sex_key weight_class_key) all_ages.
Proof.
  destruct (for_each_invariant
              (fun wc_data =>
                 exists all_ages,
                   wc_data = [("all_ages", VDict all_ages); ("by_age", VDict [])] /\
                   Forall (all_ages_entry t sex_key weight_class_key) all_ages)
              (all_ages_body t sex_key weight_class_key) LIFTS
              [("all_ages", VDict []); ("by_age", VDict [])])
    as (wc_data & Hrun & all_ages & -> & Hall).
  - exists []. by split.
  - intros lift wc_data Hlift (all_ages & -> & Hall).
    unfold all_ages_body.
    destruct (Z.leb_spec 50 (len (all_ages_values t sex_key weight_class_key lift)))
      as [Hlen | Hlen].
    + rewrite lift_entry_spec by (eapply len_positive_nonempty; [| exact Hlen]; lia).
      eexists. split; [reflexivity |]. eexists. split; [reflexivity |].
      apply dict_set_Forall; [done |]. by repeat split.
    + eexists. split; [reflexivity |]. by exists all_ages.
  - by exists all_ages.
Qed.

Lemma age_lift_loop (age_bracket : string) :
  exists age_data,
    for_each (age_lift_body t sex_key weight_class_key age_bracket) LIFTS []
    = Some age_data /\
    Forall (age_lift_entry t sex_key weight_class_key age_bracket) age_data.
Proof.
  apply (for_each_invariant
           (Forall (age_lift_entry t sex_key weight_class_key age_bracket)));
    [constructor |].
  intros lift age_data Hlift Hall. unfold age_lift_body.
  destruct (Z.leb_spec 30
              (len (by_age_values t sex_key weight_class_key age_bracket lift)))
    as [Hlen | Hlen].
  - rewrite lift_entry_spec by (eapply len_positive_nonempty; [| exact Hlen]; lia).
    eexists. split; [reflexivity |].
    apply dict_set_Forall; [done |]. by repeat split.
  - by exists age_data.
Qed.

Lemma by_age_loop (all_ages : list (string * value)) :
  exists by_age,
    for_each (by_age_body t sex_key weight_class_key) bracket_names
      [("all_ages", VDict all_ages); ("by_age", VDict [])]
    = Some [("all_ages", VDict all_ages); ("by_age", VDict by_age)] /\
    Forall (by_age_entry t sex_key weight_class_key) by_age.
Proof.
  destruct (for_each_invariant
              (fun wc_data =>
                 exists by_age,
                   wc_data = [("all_ages", VDict all_ages); ("by_age", VDict by_age)] /\
                   Forall (by_age_entry t sex_key weight_class_key) by_age)
              (by_age_body t sex_key weight_class_key) bracket_names
              [("all_ages", VDict all_ages); ("by_age", VDict [])])
    as (wc_data & Hrun & by_age & -> & Hall).
  - exists []. by split.
  - intros age_bracket wc_data Hbracket (by_age & -> & Hall).
    unfold by_age_body.
    destruct (contains (data t !!! sex_key) weight_class_key);
      [| by (eexists; split; [reflexivity | exists by_age])].
    destruct (contains ((data t !!! sex_key) !!! weight_class_key) age_bracket);
      [| by (eexists; split; [reflexivity | exists by_age])].
    simpl negb. cbv iota.
    destruct (age_lift_loop age_bracket) as (age_data & -> & Hdata).
    simpl. destruct age_data as [| kv age_data].
    + eexists. split; [reflexivity |]. by exists by_age.
    + eexists. split; [reflexivity |]. eexists. split; [reflexivity |].
      apply dict_set_Forall; [done |]. split; [done |].
      exists (kv :: age_data). by repeat split.
  - by exists by_age.
Qed.

Lemma class_key_body_ok (result : list (string * value)) :
  sex_key = "male" \/ sex_key = "female" ->
  In weight_class_key (class_keys sex_key) ->
  result_ok t result ->
  exists result',
    class_key_body t sex_key weight_class_key result = Some result' /\
    result_ok t result'.
Proof.
  intros Hsex Hkey Hok. unfold class_key_body.
  destruct (contains (all_ages_data t !!! sex_key) weight_class_key);
    [| by exists result].
  simpl negb. cbv iota zeta.
  destruct all_ages_loop as (all_ages & -> & Hall). cbn [mbind option_bind].
  destruct (by_age_loop all_ages) as (by_age & -> & Hby).
  cbn [mbind option_bind dict_get String.eqb Ascii.eqb Bool.eqb truthy_value].
  destruct all_ages as [| kv all_ages]; [by exists result |].
  destruct Hok as (male & female & -> & Hmale & Hfemale).
  assert (Hentry : class_entry t sex_key
                     (weight_class_key,
                      VDict [("all_ages", VDict (kv :: all_ages));
                             ("by_age", VDict by_age)])).
  { split; [done |]. exists (kv :: all_ages), by_age. by repeat split. }
  destruct Hsex as [-> | ->].
  - eexists. split; [reflexivity |]. eexists _, _. split; [reflexivity |].
    split; [| done]. by apply dict_set_Forall.
  - eexists. split; [reflexivity |]. eexists _, _. split; [reflexivity |].
    split; [done |]. by apply dict_set_Forall.
Qed.
End GenerateFacts.

Lemma class_body_ok (t : tables) (sex_key : string) (wc : Z)
    (result : list (string * value)) :
  sex_key = "male" \/ sex_key = "female" ->
  In wc (weight_classes_of (String.eqb sex_key "male")) ->
  result_ok t result ->
  exists result', class_body t sex_key wc result = Some result' /\ result_ok t result'.
Proof.
  intros Hsex Hwc Hok. unfold class_body.
  apply (for_each_invariant (result_ok t)); [done |].
  intros k r Hk Hr. apply class_key_body_ok; [done | | done].
  unfold class_keys. apply in_flat_map. by exists wc.
Qed.

Lemma sex_body_ok (t : tables) (sex_key : string) (result : list (string * value)) :
  sex_key = "male" \/ sex_key = "female" ->
  result_ok t result ->
  exists result', sex_body t sex_key result = Some result' /\ result_ok t result'.
Proof.
  intros Hsex Hok. unfold sex_body.
  apply (for_each_invariant (result_ok t)); [done |].
  intros wc r Hwc Hr. by apply class_body_ok.
Qed.

(** The generator never raises, and all it emits are well-formed entries. *)
Lemma generate_ok (t : tables) :
  exists result, generate t = Some (VDict result) /\ result_ok t result.
Proof.
  unfold generate.
  destruct (for_each_invariant (result_ok t) (sex_body t) ["male"; "female"]
              (initial_result t)) as (result & -> & Hok).
  - exists [], []. by repeat split.
  - intros sex_key r Hin Hr. apply sex_body_ok; [| done].
    simpl in Hin. destruct Hin as [<- | [<- | []]]; auto.
  - by exists result.
Qed.

(** ** Reading the result *)

Lemma at_path_app (v : value) (ks1 ks2 : list string) :
  at_path v (ks1 ++ ks2) = v' ← at_path v ks1; at_path v' ks2.
Proof.
  revert v. induction ks1 as [| k ks1 IH]; intros v; simpl; [done |].
  destruct (item v k); [apply IH | done].
Qed.

Section ReadFacts.
Variable t : tables.

Lemma read_class (result : list (string * value)) (sex_key wck : string) (e : value) :
  result_ok t result ->
  sex_key = "male" \/ sex_key = "female" ->
  at_path (VDict result) [sex_key; wck] = Some e ->
  class_entry t sex_key (wck, e).
Proof.
  intros (male & female & -> & Hmale & Hfemale) Hsex Hpath.
  destruct Hsex as [-> | ->]; simpl in Hpath.
  - destruct (dict_get male wck) as [e' |] eqn:E; [| done].
    injection Hpath as ->. apply dict_get_In in E.
    rewrite List.Forall_forall in Hmale. by apply Hmale.
  - destruct (dict_get female wck) as [e' |] eqn:E; [| done].
    injection Hpath as ->. apply dict_get_In in E.
    rewrite List.Forall_forall in Hfemale. by apply Hfemale.
Qed.

Lemma read_all_ages (sex_key wck lift : string) (e st : value) :
  class_entry t sex_key (wck, e) ->
  at_path e ["all_ages"; lift] = Some st ->
  all_ages_entry t sex_key wck (lift, st).
Proof.
  intros (_ & all_ages & by_age & He & _ & Hall & _) Hpath.
  simpl in He. subst e. simpl in Hpath.
  destruct (dict_get all_ages lift) as [st' |] eqn:E; [| done].
  injection Hpath as ->. apply dict_get_In in E.
  rewrite List.Forall_forall in Hall. by apply (Hall (lift, st)).
Qed.

Lemma read_bracket (sex_key wck age_bracket : string) (e e' : value) :
  class_entry t sex_key (wck, e) ->
  at_path e ["by_age"; age_bracket] = Some e' ->
  by_age_entry t sex_key wck (age_bracket, e').
Proof.
  intros (_ & all_ages & by_age & He & _ & _ & Hby) Hpath.
  simpl in He. subst e. simpl in Hpath.
  destruct (dict_get by_age age_bracket) as [e'' |] eqn:E; [| done].
  injection Hpath as ->. apply dict_get_In in E.
  rewrite List.Forall_forall in Hby. by apply (Hby (age_bracket, e')).
Qed.

Lemma read_bracket_lift (sex_key wck age_bracket lift : string) (e' st : value) :
  by_age_entry t sex_key wck (age_bracket, e') ->
  at_path e' [lift] = Some st ->
  age_lift_entry t sex_key wck age_bracket (lift, st).
Proof.
  intros (_ & age_data & He & _ & Hall) Hpath.
  simpl in He. subst e'. simpl in Hpath.
  destruct (dict_get age_data lift) as [st' |] eqn:E; [| done].
  injection Hpath as ->. apply dict_get_In in E.
  rewrite List.Forall_forall in Hall. by apply (Hall (lift, st)).
Qed.

(** The two places a lift statistic can be read from. *)
Lemma read_all_ages_stat (result : list (string * value))
    (sex_key wck lift : string) (st : value) :
  result_ok t result ->
  sex_key = "male" \/ sex_key = "female" ->
  at_path (VDict result) [sex_key; wck; "all_ages"; lift] = Some st ->
  all_ages_entry t sex_key wck (lift, st).
Proof.
  intros Hok Hsex Hpath.
  change [sex_key; wck; "all_ages"; lift]
    with ([sex_key; wck] ++ ["all_ages"; lift])%list in Hpath.
  rewrite at_path_app in Hpath.
  destruct (at_path (VDict result) [sex_key; wck]) as [e |] eqn:E; [| done].
  eapply read_all_ages; [| exact Hpath]. by apply (read_class result).
Qed.

Lemma read_bracket_entry (result : list (string * value))
    (sex_key wck age_bracket : string) (e' : value) :
  result_ok t result ->
  sex_key = "male" \/ sex_key = "female" ->
  at_path (VDict result) [sex_key; wck; "by_age"; age_bracket] = Some e' ->
  by_age_entry t sex_key wck (age_bracket, e').
Proof.
  intros Hok Hsex Hpath.
  change [sex_key; wck; "by_age"; age_bracket]
    with ([sex_key; wck] ++ ["by_age"; age_bracket])%list in Hpath.
  rewrite at_path_app in Hpath.
  destruct (at_path (VDict result) [sex_key; wck]) as [e |] eqn:E; [| done].
  eapply read_bracket; [| exact Hpath]. by apply (read_class result).
Qed.

Lemma read_by_age_stat (result : list (string * value))
    (sex_key wck age_bracket lift : string) (st : value) :
  result_ok t result ->
  sex_key = "male" \/ sex_key = "female" ->
  at_path (VDict result) [sex_key; wck; "by_age"; age_bracket; lift] = Some st ->
  age_lift_entry t sex_key wck age_bracket (lift, st).
Proof.
  intros Hok Hsex Hpath.
  change [sex_key; wck; "by_age"; age_bracket; lift]
    with ([sex_key; wck; "by_age"; age_bracket] ++ [lift])%list in Hpath.
  rewrite at_path_app in Hpath.
  destruct (at_path (VDict result) [sex_key; wck; "by_age"; age_bracket])
    as [e' |] eqn:E; [| done].
  eapply read_bracket_lift; [| exact Hpath]. by apply (read_bracket_entry result).
Qed.
End ReadFacts.

Lemma lift_stat_percentiles (values : list Q) :
  exists ps,
    item (lift_stat values) "percentiles" = Some (VDict ps) /\
    keys ps = map str PERCENTILES.
Proof.
  eexists. split; [reflexivity |].
  unfold keys. rewrite map_map. simpl. reflexivity.
Qed.

Lemma lift_stat_shape (values : list Q) : is_lift_stat (lift_stat values) = true.
Proof. reflexivity. Qed.

Lemma existsb_eqb_In (k : string) (l : list string) :
  In k l -> existsb (String.eqb k) l = true.
Proof.
  intros Hin. apply existsb_exists. exists k. split; [done | apply String.eqb_refl].
Qed.

Lemma lift_table_shape (d : list (string * value)) :
  Forall (fun kv => In kv.1 LIFTS /\ exists values, kv.2 = lift_stat values) d ->
  is_lift_table (VDict d) = true.
Proof.
  intros Hd. unfold is_lift_table. apply forallb_forall. intros kv Hin.
  rewrite List.Forall_forall in Hd. destruct (Hd kv Hin) as (Hl & values & ->).
  rewrite lift_stat_shape, andb_true_r. by apply existsb_eqb_In.
Qed.

(** ** The aggregator *)

Lemma append_all_ages_read
    (m : gmap string (gmap string (gmap string (list Q))))
    (s w l s' w' l' : string) (v : Q) :
  ((append_all_ages m s w l v !!! s') !!! w') !!! l' =
    ((((m !!! s') !!! w') !!! l') ++
     if String.eqb s s' && String.eqb w w' && String.eqb l l' then [v] else [])%list.
Proof.
  unfold append_all_ages.
  destruct (String.eqb_spec s s') as [<- | Hs]; simpl.
  - rewrite lookup_total_insert_eq.
    destruct (String.eqb_spec w w') as [<- | Hw]; simpl.
    + rewrite lookup_total_insert_eq.
      destruct (String.eqb_spec l l') as [<- | Hl]; simpl.
      * by rewrite lookup_total_insert_eq.
      * rewrite lookup_total_insert_ne by done. by rewrite app_nil_r.
    + rewrite lookup_total_insert_ne by done. by rewrite app_nil_r.
  - rewrite lookup_total_insert_ne by done. by rewrite app_nil_r.
Qed.

Lemma append_by_age_read
    (m : gmap string (gmap string (gmap string (gmap string (list Q)))))
    (s w b l s' w' b' l' : string) (v : Q) :
  (((append_by_age m s w b l v !!! s') !!! w') !!! b') !!! l' =
    (((((m !!! s') !!! w') !!! b') !!! l') ++
     if String.eqb s s' && String.eqb w w' && String.eqb b b' && String.eqb l l'
     then [v] else [])%list.
Proof.
  unfold append_by_age.
  destruct (String.eqb_spec s s') as [<- | Hs]; simpl.
  - rewrite lookup_total_insert_eq.
    destruct (String.eqb_spec w w') as [<- | Hw]; simpl.
    + rewrite lookup_total_insert_eq.
      destruct (String.eqb_spec b b') as [<- | Hb]; simpl.
      * rewrite lookup_total_insert_eq.
        destruct (String.eqb_spec l l') as [<- | Hl]; simpl.
        -- by rewrite lookup_total_insert_eq.
        -- rewrite lookup_total_insert_ne by done. by rewrite app_nil_r.
      * rewrite lookup_total_insert_ne by done. by rewrite app_nil_r.
    + rewrite lookup_total_insert_ne by done. by rewrite app_nil_r.
  - rewrite lookup_total_insert_ne by done. by rewrite app_nil_r.
Qed.

Lemma if_same_nil {A : Type} (b : bool) : (if b then @nil A else []) = [].
Proof. by destruct b. Qed.

Lemma get_weight_class_truthy (bodyweight : Q) (is_male : bool) :
  truthy (get_weight_class bodyweight is_male) = true.
Proof.
  unfold get_weight_class.
  destruct is_male; simpl; repeat (destruct (leb _ _); [reflexivity |]); reflexivity.
Qed.

Lemma column_of_lift (l : string) :
  dict_get COLUMNS l =
    if String.eqb "squat" l then Some "Best3SquatKg"
    else if String.eqb "bench" l then Some "Best3BenchKg"
    else if String.eqb "deadlift" l then Some "Best3DeadliftKg"
    else None.
Proof. reflexivity. Qed.

(** Of the three blocks only the one of the lift's own column adds values. *)
Lemma own_column {A : Type} (f : string -> list A) (l : string) :
  ((if String.eqb "squat" l then f "Best3SquatKg" else []) ++
   (if String.eqb "bench" l then f "Best3BenchKg" else []) ++
   (if String.eqb "deadlift" l then f "Best3DeadliftKg" else []))%list =
  match dict_get COLUMNS l with
  | Some column => f column
  | None => []
  end.
Proof.
  rewrite column_of_lift.
  destruct (String.eqb_spec "squat" l) as [<- | Hsquat];
    [simpl; by rewrite app_nil_r |].
  destruct (String.eqb_spec "bench" l) as [<- | Hbench];
    [simpl; by rewrite app_nil_r |].
  by destruct (String.eqb_spec "deadlift" l).
Qed.

Section AggregatorFacts.
Variable float : string -> option Q.

Lemma store_lift_all_ages (lift raw s w : string) (ab : option string)
    (st : tables * bool) (sex_key wck l : string) :
  all_ages_values (store_lift float lift raw s w ab st).1 sex_key wck l =
    (all_ages_values st.1 sex_key wck l ++
     if String.eqb s sex_key && String.eqb w wck && String.eqb lift l
     then option_list (valid_lift float raw) else [])%list.
Proof.
  unfold store_lift, valid_lift.
  destruct (truthy raw && negb (startswith raw "-"));
    [| by rewrite if_same_nil, app_nil_r].
  destruct (float raw) as [val |]; [| by rewrite if_same_nil, app_nil_r].
  destruct (ltb 0 val); [| by rewrite if_same_nil, app_nil_r].
  unfold all_ages_values. simpl. apply append_all_ages_read.
Qed.

Lemma store_lift_by_age (lift raw s w : string) (ab : option string)
    (st : tables * bool) (sex_key wck b l : string) :
  by_age_values (store_lift float lift raw s w ab st).1 sex_key wck b l =
    (by_age_values st.1 sex_key wck b l ++
     if String.eqb s sex_key && String.eqb w wck && String.eqb lift l
     then match ab with
          | Some b0 => if truthy b0 && String.eqb b0 b
                       then option_list (valid_lift float raw) else []
          | None => []
          end
     else [])%list.
Proof.
  unfold store_lift, valid_lift.
  destruct (truthy raw && negb (startswith raw "-"));
    [| by destruct ab as [b0 |]; rewrite ?if_same_nil, ?if_same_nil, app_nil_r].
  destruct (float raw) as [val |];
    [| by destruct ab as [b0 |]; rewrite ?if_same_nil, ?if_same_nil, app_nil_r].
  destruct (ltb 0 val);
    [| by destruct ab as [b0 |]; rewrite ?if_same_nil, ?if_same_nil, app_nil_r].
  unfold by_age_values. simpl.
  destruct ab as [b0 |]; simpl; [| by rewrite if_same_nil, app_nil_r].
  destruct (truthy b0); simpl; [| by rewrite if_same_nil, app_nil_r].
  rewrite append_by_age_read. f_equal.
  destruct (String.eqb s sex_key), (String.eqb w wck), (String.eqb b0 b),
    (String.eqb lift l); reflexivity.
Qed.
Lemma row_values_blocks (r : row) (sex_key wck l : string) :
  row_values float r sex_key wck l =
    match row_bucket float r with
    | Some (s, w) =>
        ((if String.eqb s sex_key && String.eqb w wck && String.eqb "squat" l
          then option_list (valid_lift float (cell r "Best3SquatKg")) else []) ++
         (if String.eqb s sex_key && String.eqb w wck && String.eqb "bench" l
          then option_list (valid_lift float (cell r "Best3BenchKg")) else []) ++
         (if String.eqb s sex_key && String.eqb w wck && String.eqb "deadlift" l
          then option_list (valid_lift float (cell r "Best3DeadliftKg")) else []))%list
    | None => []
    end.
Proof.
  unfold row_values. destruct (row_bucket float r) as [[s w] |]; [| done].
  destruct (String.eqb s sex_key && String.eqb w wck); cbn [andb].
  - symmetry.
    exact (own_column (fun c => option_list (valid_lift float (cell r c))) l).
  - by destruct (dict_get COLUMNS l).
Qed.

Lemma counted_all_ages (st : tables * bool) (sex_key wck l : string) :
  all_ages_values
    (if st.2
     then {| all_ages_data := all_ages_data st.1;
             data := data st.1;
             included_count := included_count st.1 + 1 |}
     else st.1) sex_key wck l
  = all_ages_values st.1 sex_key wck l.
Proof. by destruct st.2. Qed.

Lemma counted_by_age (st : tables * bool) (sex_key wck b l : string) :
  by_age_values
    (if st.2
     then {| all_ages_data := all_ages_data st.1;
             data := data st.1;
             included_count := included_count st.1 + 1 |}
     else st.1) sex_key wck b l
  = by_age_values st.1 sex_key wck b l.
Proof. by destruct st.2. Qed.

(** One row appends its values to the lists of its own bucket only. *)
Lemma process_row_all_ages (t : tables) (r : row) (sex_key wck l : string) :
  all_ages_values (process_row float t r) sex_key wck l =
    (all_ages_values t sex_key wck l ++ row_values float r sex_key wck l)%list.
Proof.
  rewrite row_values_blocks. unfold process_row, row_bucket.
  destruct (truthy (cell r "BodyweightKg")); simpl; [| by rewrite app_nil_r].
  destruct (float (cell r "BodyweightKg")) as [bodyweight |];
    [| by rewrite app_nil_r].
  destruct (String.eqb (lower (cell r "Sex")) "m"
            || String.eqb (lower (cell r "Sex")) "f"); simpl;
    [| by rewrite app_nil_r].
  rewrite get_weight_class_truthy. simpl.
  rewrite counted_all_ages, !store_lift_all_ages. cbn [fst snd].
  by rewrite <- !app_assoc.
Qed.

Lemma process_row_by_age (t : tables) (r : row) (sex_key wck b l : string) :
  by_age_values (process_row float t r) sex_key wck b l =
    (by_age_values t sex_key wck b l
     ++ row_values_in_bracket float r sex_key wck b l)%list.
Proof.
  unfold row_values_in_bracket. rewrite row_values_blocks.
  unfold process_row, row_bucket.
  destruct (truthy (cell r "BodyweightKg")); simpl;
    [| by destruct (row_age_bracket float r) as [b0 |];
          rewrite ?if_same_nil, app_nil_r].
  destruct (float (cell r "BodyweightKg")) as [bodyweight |];
    [| by destruct (row_age_bracket float r) as [b0 |];
          rewrite ?if_same_nil, app_nil_r].
  destruct (String.eqb (lower (cell r "Sex")) "m"
            || String.eqb (lower (cell r "Sex")) "f"); simpl;
    [| by destruct (row_age_bracket float r) as [b0 |];
          rewrite ?if_same_nil, app_nil_r].
  rewrite get_weight_class_truthy. simpl.
  rewrite counted_by_age, !store_lift_by_age. cbn [fst snd].
  rewrite <- !app_assoc. f_equal.
  set (s := if String.eqb (lower (cell r "Sex")) "m" then "male" else "female").
  set (w := get_weight_class bodyweight (String.eqb (lower (cell r "Sex")) "m")).
  destruct (row_age_bracket float r) as [b0 |];
    [| by rewrite !if_same_nil].
  destruct (truthy b0 && String.eqb b0 b); [| by rewrite !if_same_nil].
  by destruct (String.eqb s sex_key && String.eqb w wck).
Qed.

Lemma fold_all_ages (rows : list row) (t : tables) (sex_key wck l : string) :
  all_ages_values (fold_left (process_row float) rows t) sex_key wck l =
    (all_ages_values t sex_key wck l
     ++ flat_map (fun r => row_values float r sex_key wck l) rows)%list.
Proof.
  revert t. induction rows as [| r rows IH]; intros t; simpl.
  - by rewrite app_nil_r.
  - by rewrite IH, process_row_all_ages, <- app_assoc.
Qed.

Lemma fold_by_age (rows : list row) (t : tables) (sex_key wck b l : string) :
  by_age_values (fold_left (process_row float) rows t) sex_key wck b l =
    (by_age_values t sex_key wck b l
     ++ flat_map (fun r => row_values_in_bracket float r sex_key wck b l) rows)%list.
Proof.
  revert t. induction rows as [| r rows IH]; intros t; simpl.
  - by rewrite app_nil_r.
  - by rewrite IH, process_row_by_age, <- app_assoc.
Qed.

(** The list aggregated for a bucket holds, in the order of the rows, the
    valid values of the rows filed under it. *)
Lemma all_ages_values_ingest (rows : list row) (sex_key wck l : string) :
  all_ages_values (ingest float rows) sex_key wck l =
    flat_map (fun r => row_values float r sex_key wck l) rows.
Proof.
  unfold ingest. rewrite fold_all_ages.
  assert (all_ages_values empty_tables sex_key wck l = []) as ->; [| done].
  unfold all_ages_values, empty_tables. simpl.
  destruct (String.eqb_spec "male" sex_key) as [<- | Hm].
  { by rewrite lookup_total_insert_eq, !lookup_total_empty. }
  rewrite lookup_total_insert_ne by done.
  destruct (String.eqb_spec "female" sex_key) as [<- | Hf].
  { by rewrite lookup_total_insert_eq, !lookup_total_empty. }
  by rewrite lookup_total_insert_ne, !lookup_total_empty.
Qed.

Lemma by_age_values_ingest (rows : list row) (sex_key wck b l : string) :
  by_age_values (ingest float rows) sex_key wck b l =
    flat_map (fun r => row_values_in_bracket float r sex_key wck b l) rows.
Proof.
  unfold ingest. rewrite fold_by_age.
  assert (by_age_values empty_tables sex_key wck b l = []) as ->; [| done].
  unfold by_age_values, empty_tables. simpl.
  destruct (String.eqb_spec "male" sex_key) as [<- | Hm].
  { by rewrite lookup_total_insert_eq, !lookup_total_empty. }
  rewrite lookup_total_insert_ne by done.
  destruct (String.eqb_spec "female" sex_key) as [<- | Hf].
  { by rewrite lookup_total_insert_eq, !lookup_total_empty. }
  by rewrite lookup_total_insert_ne, !lookup_total_empty.
Qed.
End AggregatorFacts.

(** ** [process_data] *)

Section ProcessData.
Variable float : string -> option Q.
Variable rows : list row.

Lemma process_data_ok :
  exists result,
    process_data float rows = Some (VDict result) /\
    result_ok (ingest float rows) result.
Proof. apply generate_ok. Qed.

(** C2.  An ["all_ages"] statistic of a lift is in the output only when
    the values aggregated for that sex, weight class and lift number at
    least 50, and it then carries that count; a lift with fewer values
    has no entry in the ["all_ages"] mapping.  The aggregated values are
    the valid lifts of the rows filed under the sex and weight class. *)
Theorem all_ages_needs_50 (sex_key wck lift : string) :
  sex_key = "male" \/ sex_key = "female" ->
  let values := all_ages_values (ingest float rows) sex_key wck lift in
  exists result,
    process_data float rows = Some result /\
    (forall st,
        at_path result [sex_key; wck; "all_ages"; lift] = Some st ->
        50 <= len values /\ st = lift_stat values /\
        item st "count" = Some (VInt (len values))) /\
    (len values < 50 ->
     at_path result [sex_key; wck; "all_ages"; lift] = None) /\
    values = flat_map (fun r => row_values float r sex_key wck lift) rows.
Proof.
  intros Hsex values.
  destruct process_data_ok as (result & Hrun & Hok).
  exists (VDict result). split; [done |].
  assert (Hvalues : values =
            flat_map (fun r => row_values float r sex_key wck lift) rows)
    by apply all_ages_values_ingest.
  assert (Hread : forall st,
             at_path (VDict result) [sex_key; wck; "all_ages"; lift] = Some st ->
             50 <= len values /\ st = lift_stat values).
  { intros st Hpath.
    destruct (read_all_ages_stat _ _ _ _ _ _ Hok Hsex Hpath) as (_ & Hlen & Hst).
    by split. }
  split; [| split; [| exact Hvalues]].
  - intros st Hpath. destruct (Hread st Hpath) as [Hlen ->]. by repeat split.
  - intros Hlen.
    destruct (at_path (VDict result) [sex_key; wck; "all_ages"; lift])
      as [st |] eqn:E; [| done].
    destruct (Hread st eq_refl). lia.
Qed.

(** C3.  A statistic of a lift under an age bracket is in the output only
    when the values aggregated for that sex, weight class, age bracket and
    lift number at least 30; a lift with fewer values has no entry in the
    mapping of the bracket, and a bracket none of whose lifts qualifies
    has no entry in ["by_age"]: a bracket that is present is not empty.
    The aggregated values are the valid lifts of the rows filed under the
    sex, weight class and age bracket. *)
Theorem by_age_needs_30 (sex_key wck age_bracket lift : string) :
  sex_key = "male" \/ sex_key = "female" ->
  let t := ingest float rows in
  let values := by_age_values t sex_key wck age_bracket lift in
  exists result,
    process_data float rows = Some result /\
    (forall st,
        at_path result [sex_key; wck; "by_age"; age_bracket; lift] = Some st ->
        30 <= len values /\ st = lift_stat values /\
        item st "count" = Some (VInt (len values))) /\
    (len values < 30 ->
     at_path result [sex_key; wck; "by_age"; age_bracket; lift] = None) /\
    ((forall l, In l LIFTS ->
                len (by_age_values t sex_key wck age_bracket l) < 30) ->
     at_path result [sex_key; wck; "by_age"; age_bracket] = None) /\
    (forall e,
        at_path result [sex_key; wck; "by_age"; age_bracket] = Some e ->
        exists age_data, e = VDict age_data /\ age_data <> []) /\
    values =
      flat_map (fun r => row_values_in_bracket float r sex_key wck age_bracket lift)
               rows.
Proof.
  intros Hsex t values.
  destruct process_data_ok as (result & Hrun & Hok). fold t in Hok.
  exists (VDict result). split; [done |].
  assert (Hvalues : values =
            flat_map (fun r => row_values_in_bracket float r sex_key wck
                                 age_bracket lift) rows)
    by apply by_age_values_ingest.
  assert (Hread : forall st,
             at_path (VDict result) [sex_key; wck; "by_age"; age_bracket; lift]
             = Some st ->
             30 <= len values /\ st = lift_stat values).
  { intros st Hpath.
    destruct (read_by_age_stat _ _ _ _ _ _ _ Hok Hsex Hpath) as (_ & Hlen & Hst).
    by split. }
  assert (Hbracket : forall e,
             at_path (VDict result) [sex_key; wck; "by_age"; age_bracket] = Some e ->
             exists age_data,
               e = VDict age_data /\ age_data <> [] /\
               Forall (age_lift_entry t sex_key wck age_bracket) age_data).
  { intros e Hpath.
    by destruct (read_bracket_entry _ _ _ _ _ _ Hok Hsex Hpath) as (_ & Hdata). }
  split; [| split; [| split; [| split; [| exact Hvalues]]]].
  - intros st Hpath. destruct (Hread st Hpath) as [Hlen ->]. by repeat split.
  - intros Hlen.
    destruct (at_path (VDict result) [sex_key; wck; "by_age"; age_bracket; lift])
      as [st |] eqn:E; [| done].
    destruct (Hread st eq_refl). lia.
  - intros Hnone.
    destruct (at_path (VDict result) [sex_key; wck; "by_age"; age_bracket])
      as [e |] eqn:E; [| done].
    destruct (Hbracket e eq_refl) as (age_data & _ & Hne & Hall).
    destruct age_data as [| [l st] age_data]; [done |].
    apply Forall_cons in Hall as [(Hl & Hlen & _) _]. simpl in Hl, Hlen.
    specialize (Hnone l Hl). lia.
  - intros e Hpath.
    destruct (Hbracket e Hpath) as (age_data & He & Hne & _). by exists age_data.
Qed.

(** C7.  Every emitted lift statistic, under ["all_ages"] or under an age
    bracket, has a percentile entry for exactly the twelve percentiles
    5, 10, 20, 30, 40, 50, 60, 70, 80, 90, 95 and 99, in this order. *)
Theorem percentile_keys_exact (sex_key wck : string) :
  sex_key = "male" \/ sex_key = "female" ->
  exists result,
    process_data float rows = Some result /\
    (forall lift st,
        at_path result [sex_key; wck; "all_ages"; lift] = Some st ->
        exists ps,
          item st "percentiles" = Some (VDict ps) /\
          keys ps = ["5"; "10"; "20"; "30"; "40"; "50";
                     "60"; "70"; "80"; "90"; "95"; "99"]) /\
    (forall age_bracket lift st,
        at_path result [sex_key; wck; "by_age"; age_bracket; lift] = Some st ->
        exists ps,
          item st "percentiles" = Some (VDict ps) /\
          keys ps = ["5"; "10"; "20"; "30"; "40"; "50";
                     "60"; "70"; "80"; "90"; "95"; "99"]) /\
    map str PERCENTILES = ["5"; "10"; "20"; "30"; "40"; "50";
                           "60"; "70"; "80"; "90"; "95"; "99"].
Proof.
  intros Hsex.
  destruct process_data_ok as (result & Hrun & Hok).
  exists (VDict result). split; [done |]. split; [| split; [| done]].
  - intros lift st Hpath.
    destruct (read_all_ages_stat _ _ _ _ _ _ Hok Hsex Hpath) as (_ & _ & Hst).
    simpl in Hst. subst st. apply lift_stat_percentiles.
  - intros age_bracket lift st Hpath.
    destruct (read_by_age_stat _ _ _ _ _ _ _ Hok Hsex Hpath) as (_ & _ & Hst).
    simpl in Hst. subst st. apply lift_stat_percentiles.
Qed.

(** C10.  Every weight-class entry of the output has a non-empty
    ["all_ages"] mapping: a weight class none of whose lifts reaches 50
    values over all ages has no entry at all, whatever its age brackets
    hold. *)
Theorem class_needs_all_ages (sex_key wck : string) :
  sex_key = "male" \/ sex_key = "female" ->
  let t := ingest float rows in
  exists result,
    process_data float rows = Some result /\
    (forall e,
        at_path result [sex_key; wck] = Some e ->
        exists all_ages,
          item e "all_ages" = Some (VDict all_ages) /\ all_ages <> []) /\
    ((forall lift, In lift LIFTS ->
                   len (all_ages_values t sex_key wck lift) < 50) ->
     at_path result [sex_key; wck] = None).
Proof.
  intros Hsex t.
  destruct process_data_ok as (result & Hrun & Hok). fold t in Hok.
  exists (VDict result). split; [done |].
  assert (Hread : forall e,
             at_path (VDict result) [sex_key; wck] = Some e ->
             exists all_ages,
               item e "all_ages" = Some (VDict all_ages) /\ all_ages <> [] /\
               Forall (all_ages_entry t sex_key wck) all_ages).
  { intros e Hpath.
    destruct (read_class _ _ _ _ _ Hok Hsex Hpath)
      as (_ & all_ages & by_age & He & Hne & Hall & _).
    simpl in He. subst e. by exists all_ages. }
  split.
  - intros e Hpath. destruct (Hread e Hpath) as (all_ages & He & Hne & _).
    by exists all_ages.
  - intros Hnone.
    destruct (at_path (VDict result) [sex_key; wck]) as [e |] eqn:E; [| done].
    destruct (Hread e eq_refl) as (all_ages & _ & Hne & Hall).
    destruct all_ages as [| [l st] all_ages]; [done |].
    apply Forall_cons in Hall as [(Hl & Hlen & _) _]. simpl in Hl, Hlen.
    specialize (Hnone l Hl). lia.
Qed.

Lemma class_entry_shape (sex_key : string) (kv : string * value) :
  class_entry (ingest float rows) sex_key kv -> class_shape kv.2 = true.
Proof.
  intros (_ & all_ages & by_age & -> & _ & Hall & Hby).
  unfold class_shape. cbn [String.eqb Ascii.eqb Bool.eqb andb].
  apply andb_true_iff. split.
  - apply lift_table_shape. eapply Forall_impl; [exact Hall |].
    intros [l st] (Hl & _ & Hst). split; [done | by eexists].
  - apply forallb_forall. intros [ab e] Hin.
    rewrite List.Forall_forall in Hby.
    destruct (Hby _ Hin) as (Hab & age_data & He & _ & Hdata).
    cbn [fst snd] in *. subst e. apply andb_true_iff. split.
    + by apply existsb_eqb_In.
    + apply lift_table_shape. eapply Forall_impl; [exact Hdata |].
      intros [l st] (Hl & _ & Hst). split; [done | by eexists].
Qed.

(** C6, as amended.  The result maps ["male"] and ["female"] (next to
    ["metadata"]) to a mapping from weight-class labels to an object with
    exactly the keys ["all_ages"] and ["by_age"].  ["all_ages"] maps lift
    names to objects with exactly the fields ["count"] and
    ["percentiles"], the latter a mapping from percentile keys to numbers.
    ["by_age"] maps age-bracket labels to such mappings from lift names:
    the lift names are one level deeper there than under ["all_ages"]. *)
Theorem result_shape :
  exists result,
    process_data float rows = Some (VDict result) /\
    keys result = ["metadata"; "male"; "female"] /\
    forall sex_key,
      sex_key = "male" \/ sex_key = "female" ->
      exists classes,
        dict_get result sex_key = Some (VDict classes) /\
        Forall (fun kv => In kv.1 (class_keys sex_key) /\ class_shape kv.2 = true)
               classes.
Proof.
  destruct process_data_ok as (result & Hrun & Hok).
  exists result. split; [done |].
  destruct Hok as (male & female & -> & Hmale & Hfemale).
  split; [done |]. intros sex_key [-> | ->].
  - exists male. split; [done |].
    eapply Forall_impl; [exact Hmale |]. intros kv Hkv. split.
    + apply Hkv.
    + by apply (class_entry_shape "male").
  - exists female. split; [done |].
    eapply Forall_impl; [exact Hfemale |]. intros kv Hkv. split.
    + apply Hkv.
    + by apply (class_entry_shape "female").
Qed.
End ProcessData.

(** * Worked inputs *)

(** C1 at four values and the median: the fractional index is 1.5, so the
    result interpolates between the second and third sorted value. *)
Lemma calculate_percentile_interpolates_witness :
  let values := [3; 1; 4; 2]%Q in
  let w := (fractional_index 4 50 - inject_Z 1)%Q in
  values <> [] /\ In 50 PERCENTILES /\
  exists a b,
    sorted values !! 1%nat = Some a /\
    sorted values !! 2%nat = Some b /\
    calculate_percentile values 50 = Some (a * (1 - w) + b * w)%Q.
Proof.
  intros values w.
  assert (Hne : values <> []) by discriminate.
  assert (Hp : In 50 PERCENTILES) by (simpl; tauto).
  split; [exact Hne |]. split; [exact Hp |].
  destruct (calculate_percentile_interpolates values 50 Hne Hp)
    as (_ & _ & _ & _ & _ & Hin & _).
  apply Hin. vm_compute. discriminate.
Defined.

(** C8 at a list and one of its reorderings. *)
Lemma calculate_percentile_permutation_witness :
  Permutation [3; 1; 2]%Q [1; 2; 3]%Q /\
  option_Forall2 Qeq (calculate_percentile [3; 1; 2]%Q 50)
                     (calculate_percentile [1; 2; 3]%Q 50).
Proof.
  assert (Hperm : Permutation [3; 1; 2]%Q [1; 2; 3]%Q).
  { apply perm_trans with [1; 3; 2]%Q; [apply perm_swap |].
    apply perm_skip, perm_swap. }
  split; [exact Hperm |].
  exact (calculate_percentile_permutation _ _ 50 Hperm).
Defined.

(** C4 at 80 kg and at 150 kg, for a man. *)
Lemma get_weight_class_smallest_witness :
  get_weight_class 80 true = "83" /\ get_weight_class 150 true = "140+".
Proof.
  split.
  - destruct (get_weight_class_smallest 80 true) as (_ & _ & Hsome & _).
    apply (Hsome 83).
    + simpl. tauto.
    + unfold Qle. simpl. lia.
    + intros wc' Hin Hle. unfold Qle in Hle. simpl in Hle, Hin. lia.
  - destruct (get_weight_class_smallest 150 true) as (_ & _ & _ & Hnone).
    destruct Hnone as (top & Hin & Hmax & Hlabel).
    + intros wc Hin. unfold Qlt. simpl in *. lia.
    + rewrite Hlabel. assert (top = 140) as ->; [| reflexivity].
      specialize (Hmax 140). simpl in Hin, Hmax. lia.
Defined.

(** C5: a lifter aged 30 is in the bracket ["open"]. *)
Lemma row_age_bracket_correct_witness :
  exists b,
    row_age_bracket float_of_decimal squat_row = Some b /\ first_containing 30 b.
Proof.
  destruct (row_age_bracket_correct float_of_decimal squat_row)
    as (_ & Hsome & _ & _).
  apply Hsome.
  - discriminate.
  - reflexivity.
  - exists (24, 39, "open"). split; [simpl; tauto |].
    split; unfold Qle; simpl; lia.
Defined.

(** C5 as first stated fails on a record whose age field is present and
    parses: an age of 1000 lies in no configured range, and the record
    receives no age bracket. *)
Lemma age_1000_has_no_bracket :
  row_age_bracket float_of_decimal (aged_row "1000") = None /\
  ~ (cell (aged_row "1000") "Age" = ""
     \/ float_of_decimal (cell (aged_row "1000") "Age") = None).
Proof.
  split; [reflexivity |]. intros [H | H]; vm_compute in H; discriminate.
Qed.

(** The same happens between two brackets: 23.5 is above ["junior"] and
    below ["open"]. *)
Lemma age_between_brackets :
  float_of_decimal "23.5" = Some (235 # 10)%Q /\
  get_age_bracket (235 # 10) = None /\
  row_age_bracket float_of_decimal (aged_row "23.5") = None.
Proof. repeat split. Qed.

(** C2 at fifty rows. *)
Lemma all_ages_needs_50_witness :
  ("male" = "male" \/ "male" = "female") /\
  exists result,
    process_data float_of_decimal fifty_rows = Some result /\
    (forall st,
        at_path result ["male"; "83"; "all_ages"; "squat"] = Some st ->
        50 <= len (all_ages_values (ingest float_of_decimal fifty_rows)
                     "male" "83" "squat")) /\
    is_Some (at_path result ["male"; "83"; "all_ages"; "squat"]).
Proof.
  assert (Hsex : "male" = "male" \/ "male" = "female") by (by left).
  split; [exact Hsex |].
  destruct (all_ages_needs_50 float_of_decimal fifty_rows "male" "83" "squat" Hsex)
    as (result & Hrun & Hsome & _).
  exists result. split; [exact Hrun |]. split.
  - intros st Hst. apply (Hsome st Hst).
  - vm_compute in Hrun. injection Hrun as <-. vm_compute. eauto.
Defined.

(** Forty-nine rows are one short: nothing is emitted for the class. *)
Lemma forty_nine_rows_emit_nothing :
  len (all_ages_values (ingest float_of_decimal (repeat squat_row 49))
         "male" "83" "squat") = 49 /\
  exists result,
    process_data float_of_decimal (repeat squat_row 49) = Some result /\
    at_path result ["male"] = Some (VDict []).
Proof. split; [reflexivity |]. eexists. split; vm_compute; reflexivity. Qed.

(** C3 at fifty rows of lifters aged 30. *)
Lemma by_age_needs_30_witness :
  ("male" = "male" \/ "male" = "female") /\
  exists result,
    process_data float_of_decimal fifty_rows = Some result /\
    (forall st,
        at_path result ["male"; "83"; "by_age"; "open"; "squat"] = Some st ->
        30 <= len (by_age_values (ingest float_of_decimal fifty_rows)
                     "male" "83" "open" "squat")) /\
    at_path result ["male"; "83"; "by_age"; "open"; "bench"] = None.
Proof.
  assert (Hsex : "male" = "male" \/ "male" = "female") by (by left).
  split; [exact Hsex |].
  destruct (by_age_needs_30 float_of_decimal fifty_rows "male" "83" "open" "squat" Hsex)
    as (result & Hrun & Hsome & _).
  exists result. split; [exact Hrun |]. split.
  - intros st Hst. apply (Hsome st Hst).
  - vm_compute in Hrun. injection Hrun as <-. reflexivity.
Defined.

(** C7 at fifty rows. *)
Lemma percentile_keys_exact_witness :
  ("male" = "male" \/ "male" = "female") /\
  exists result,
    process_data float_of_decimal fifty_rows = Some result /\
    forall lift st,
      at_path result ["male"; "83"; "all_ages"; lift] = Some st ->
      exists ps,
        item st "percentiles" = Some (VDict ps) /\
        keys ps = ["5"; "10"; "20"; "30"; "40"; "50";
                   "60"; "70"; "80"; "90"; "95"; "99"].
Proof.
  assert (Hsex : "male" = "male" \/ "male" = "female") by (left; reflexivity).
  split; [exact Hsex |].
  destruct (percentile_keys_exact float_of_decimal fifty_rows "male" "83" Hsex)
    as (result & Hrun & Hall & _).
  exists result. split; [exact Hrun | exact Hall].
Defined.

(** C10 at thirty rows of lifters aged 30: the bracket ["open"] holds 30
    squats, enough for an age-bracket statistic, but the class has fewer
    than 50 over all ages and is dropped with its bracket. *)
Lemma class_needs_all_ages_witness :
  let rows := repeat squat_row 30 in
  let t := ingest float_of_decimal rows in
  ("male" = "male" \/ "male" = "female") /\
  (forall lift, In lift LIFTS -> len (all_ages_values t "male" "83" lift) < 50) /\
  len (by_age_values t "male" "83" "open" "squat") = 30 /\
  exists result,
    process_data float_of_decimal rows = Some result /\
    at_path result ["male"; "83"] = None.
Proof.
  intros rows t.
  assert (Hsex : "male" = "male" \/ "male" = "female") by (by left).
  assert (Hfew : forall lift, In lift LIFTS ->
                              len (all_ages_values t "male" "83" lift) < 50).
  { intros lift [<- | [<- | [<- | []]]]; by vm_compute. }
  split; [exact Hsex |]. split; [exact Hfew |]. split; [reflexivity |].
  destruct (class_needs_all_ages float_of_decimal rows "male" "83" Hsex)
    as (result & Hrun & _ & Hnone).
  exists result. split; [exact Hrun |]. by apply Hnone.
Defined.

(** C6 as first stated fails at fifty rows: under ["by_age"] the key is the
    bracket ["open"], not a lift name, and the lift statistic is found one
    level deeper. *)
Lemma by_age_has_bracket_level :
  exists result e,
    process_data float_of_decimal fifty_rows = Some result /\
    at_path result ["male"; "83"] = Some e /\
    claimed_class_shape e = false /\
    at_path result ["male"; "83"; "by_age"; "squat"] = None /\
    is_Some (at_path result ["male"; "83"; "by_age"; "open"; "squat"]).
Proof.
  eexists _, _. split; [vm_compute; reflexivity |].
  split; [vm_compute; reflexivity |].
  split; [vm_compute; reflexivity |].
  split; [vm_compute; reflexivity |].
  vm_compute. eauto.
Qed.

(** C6 as amended, at fifty rows. *)
Lemma result_shape_witness :
  exists classes,
    (result ← process_data float_of_decimal fifty_rows; item result "male")
    = Some (VDict classes) /\
    Forall (fun kv => class_shape kv.2 = true) classes.
Proof.
  destruct (result_shape float_of_decimal fifty_rows) as (result & Hrun & _ & Hsex).
  destruct (Hsex "male") as (classes & Hget & Hall); [by left |].
  exists classes. rewrite Hrun. split; [exact Hget |].
  eapply Forall_impl; [exact Hall |]. by intros kv [_ Hshape].
Defined.

(** * Further properties *)

(** ** The reducer on its whole domain *)















(** ** The classifier on its whole domain *)

Lemma get_weight_class_in_labels (bodyweight : Q) (is_male : bool) :
  In (get_weight_class bodyweight is_male) (class_labels is_male).
Proof.
  unfold get_weight_class.
  destruct is_male; simpl;
    repeat (destruct (leb _ _); [simpl; tauto |]); simpl; tauto.
Qed.

(** X5.  Every bodyweight, of either sex, is given one of the nine labels
    of that sex: the eight thresholds and the heaviest one with a ["+"].
    The label is never empty, so no row is dropped for lack of a weight
    class. *)
Theorem get_weight_class_label (bodyweight : Q) (is_male : bool) :
  In (get_weight_class bodyweight is_male) (class_labels is_male) /\
  truthy (get_weight_class bodyweight is_male) = true /\
  length (class_labels is_male) = 9%nat.
Proof.
  split; [| split; [| by destruct is_male]].
  - apply get_weight_class_in_labels.
  - unfold get_weight_class.
    destruct is_male; simpl; repeat (destruct (leb _ _); [reflexivity |]);
      reflexivity.
Qed.

Ltac split_leb :=
  repeat match goal with
         | |- context [leb ?a ?b] =>
             let E := fresh "E" in
             destruct (leb a b) eqn:E;
             [apply leb_le in E | apply leb_gt in E];
             unfold inject_Z in E; cbn [andb]
         end.


(** X7.  An age that is a whole number from 0 to 999 always has a
    bracket. *)
Theorem get_age_bracket_whole (n : Z) :
  0 <= n <= 999 -> exists b, get_age_bracket (inject_Z n) = Some b.
Proof.
  intros Hn. unfold get_age_bracket, AGE_BRACKETS. cbn [first_bracket].
  split_leb; try (eexists; reflexivity);
    exfalso; unfold Qle, Qlt in *; simpl in *; lia.
Qed.

(** X8.  The ranges do not overlap: an age in the range of any configured
    bracket is given that bracket, whatever the order of the table. *)
Theorem get_age_bracket_any_range (age : Q) (ab : Z * Z * string) :
  In ab AGE_BRACKETS -> in_range age ab -> get_age_bracket age = Some ab.2.
Proof.
  intros Hin [Hmin Hmax].
  unfold get_age_bracket, AGE_BRACKETS in *. cbn [first_bracket].
  simpl in Hin.
  destruct Hin as [<- | [<- | [<- | [<- | [<- | [<- | []]]]]]];
    unfold inject_Z in Hmin, Hmax; simpl in Hmin, Hmax;
    split_leb; first [reflexivity | exfalso; lra].
Qed.

(** ** The aggregator, row by row *)

Section RowFacts.
Variable float : string -> option Q.

Lemma store_lift_spec (lift raw s w : string) (ab : option string)
    (st : tables * bool) :
  store_lift float lift raw s w ab st =
    match valid_lift float raw with
    | Some val =>
        ({| all_ages_data := append_all_ages (all_ages_data st.1) s w lift val;
            data := match ab with
                    | Some b => if bracket_given ab
                                then append_by_age (data st.1) s w b lift val
                                else data st.1
                    | None => data st.1
                    end;
            included_count := included_count st.1 |}, true)
    | None => st
    end.
Proof.
  unfold store_lift, valid_lift.
  destruct (truthy raw && negb (startswith raw "-")); [| done].
  destruct (float raw) as [val |]; [| done].
  by destruct (ltb 0 val).
Qed.

Lemma valid_lift_positive (raw : string) (val : Q) :
  valid_lift float raw = Some val ->
  (0 < val)%Q /\ raw <> "" /\ startswith raw "-" = false /\ float raw = Some val.
Proof.
  unfold valid_lift.
  destruct (truthy raw) eqn:Et; simpl; [| done].
  destruct (startswith raw "-") eqn:Es; simpl; [done |].
  destruct (float raw) as [v |]; [| done].
  destruct (ltb 0 v) eqn:El; [| done].
  intros [= <-]. apply ltb_lt in El.
  split; [done |]. split; [| done]. by intros ->.
Qed.

Lemma process_row_included (t : tables) (r : row) :
  (row_included float r = false -> process_row float t r = t) /\
  (row_included float r = true ->
   included_count (process_row float t r) = included_count t + 1).
Proof.
  split.
  - unfold row_included, process_row, row_bucket.
    destruct (truthy (cell r "BodyweightKg")); simpl; [| done].
    destruct (float (cell r "BodyweightKg")) as [bodyweight |]; [| done].
    destruct (String.eqb (lower (cell r "Sex")) "m"
              || String.eqb (lower (cell r "Sex")) "f"); simpl; [| done].
    rewrite get_weight_class_truthy. simpl. rewrite !store_lift_spec.
    destruct (valid_lift float (cell r "Best3SquatKg")); [done |].
    destruct (valid_lift float (cell r "Best3BenchKg")); [done |].
    by destruct (valid_lift float (cell r "Best3DeadliftKg")).
  - unfold row_included, process_row, row_bucket.
    destruct (truthy (cell r "BodyweightKg")); simpl; [| done].
    destruct (float (cell r "BodyweightKg")) as [bodyweight |]; [| done].
    destruct (String.eqb (lower (cell r "Sex")) "m"
              || String.eqb (lower (cell r "Sex")) "f"); simpl; [| done].
    rewrite get_weight_class_truthy. simpl. rewrite !store_lift_spec.
    destruct (valid_lift float (cell r "Best3SquatKg")),
      (valid_lift float (cell r "Best3BenchKg")),
      (valid_lift float (cell r "Best3DeadliftKg")); simpl; done.
Qed.

(** X9.  A row without a bodyweight that parses, or with a sex other than
    ["m"] or ["f"] (in either case), or with no valid lift, changes
    nothing: no list grows and the row is not counted.  Every other row
    is counted exactly once, however many lifts it holds. *)
Theorem process_row_counts (t : tables) (r : row) :
  (row_included float r = false -> process_row float t r = t) /\
  (row_included float r = true ->
   included_count (process_row float t r) = included_count t + 1) /\
  (row_bucket float r = None <->
   cell r "BodyweightKg" = "" \/ float (cell r "BodyweightKg") = None \/
   (lower (cell r "Sex") <> "m" /\ lower (cell r "Sex") <> "f")).
Proof.
  destruct (process_row_included t r) as [Hskip Hcount].
  split; [exact Hskip |]. split; [exact Hcount |].
  unfold row_bucket.
  destruct (truthy (cell r "BodyweightKg")) eqn:Et; simpl.
  - assert (cell r "BodyweightKg" <> "").
    { intros E. rewrite E in Et. done. }
    destruct (float (cell r "BodyweightKg")) as [bodyweight |].
    + destruct (String.eqb_spec (lower (cell r "Sex")) "m") as [Em | Em]; simpl.
      { split; [done |]. intros [? | [? | [? _]]]; done. }
      destruct (String.eqb_spec (lower (cell r "Sex")) "f") as [Ef | Ef]; simpl.
      { split; [done |]. intros [? | [? | [_ ?]]]; done. }
      split; [| done]. intros _. right. right. done.
    + split; [| done]. intros _. right. by left.
  - apply truthy_false in Et. split; [| done]. intros _. by left.
Qed.

Lemma fold_included (rows : list row) (t : tables) :
  included_count (fold_left (process_row float) rows t) =
    included_count t + Z.of_nat (length (List.filter (row_included float) rows)).
Proof.
  revert t. induction rows as [| r rows IH]; intros t; simpl; [lia |].
  rewrite IH. destruct (process_row_included t r) as (Hskip & Hcount).
  destruct (row_included float r) eqn:E.
  - rewrite Hcount by done. rewrite length_cons. lia.
  - by rewrite Hskip.
Qed.


Lemma row_bucket_some (r : row) (s w : string) :
  row_bucket float r = Some (s, w) ->
  exists bodyweight,
    float (cell r "BodyweightKg") = Some bodyweight /\
    (s = "male" \/ s = "female") /\
    w = get_weight_class bodyweight (String.eqb s "male").
Proof.
  unfold row_bucket.
  destruct (truthy (cell r "BodyweightKg")); [| done].
  destruct (float (cell r "BodyweightKg")) as [bodyweight |]; [| done].
  cbv zeta.
  destruct (String.eqb (lower (cell r "Sex")) "m"
            || String.eqb (lower (cell r "Sex")) "f"); [| done].
  intros [= <- <-]. exists bodyweight. split; [done |].
  destruct (String.eqb (lower (cell r "Sex")) "m"); simpl; auto.
Qed.

Lemma row_values_valid (r : row) (sex_key wck lift : string) (x : Q) :
  In x (row_values float r sex_key wck lift) ->
  exists bodyweight column,
    float (cell r "BodyweightKg") = Some bodyweight /\
    (sex_key = "male" \/ sex_key = "female") /\
    wck = get_weight_class bodyweight (String.eqb sex_key "male") /\
    dict_get COLUMNS lift = Some column /\
    valid_lift float (cell r column) = Some x.
Proof.
  unfold row_values.
  destruct (row_bucket float r) as [[s w] |] eqn:Eb; [| done].
  destruct (dict_get COLUMNS lift) as [column |] eqn:Ec; [| done].
  destruct (String.eqb_spec s sex_key) as [<- | Hs]; [| done].
  destruct (String.eqb_spec w wck) as [<- | Hw]; [| done].
  cbn [andb].
  destruct (valid_lift float (cell r column)) as [val |] eqn:Ev; [| done].
  intros [<- | []].
  apply row_bucket_some in Eb as (bodyweight & Hb & Hsex & Hw).
  by exists bodyweight, column.
Qed.

Lemma all_ages_sources (rows : list row) (sex_key wck lift : string) (x : Q) :
  In x (all_ages_values (ingest float rows) sex_key wck lift) ->
  exists r column,
    In r rows /\ dict_get COLUMNS lift = Some column /\
    valid_lift float (cell r column) = Some x.
Proof.
  rewrite all_ages_values_ingest. intros Hx.
  apply in_flat_map in Hx as (r & Hr & Hx).
  apply row_values_valid in Hx as (_ & column & _ & _ & _ & Hc & Hv).
  by exists r, column.
Qed.

Lemma all_ages_positive (rows : list row) (sex_key wck lift : string) :
  Forall (fun x => (0 < x)%Q)
         (all_ages_values (ingest float rows) sex_key wck lift).
Proof.
  apply List.Forall_forall. intros x Hx.
  apply all_ages_sources in Hx as (r & column & _ & _ & Hv).
  by apply valid_lift_positive in Hv as [Hpos _].
Qed.

Lemma by_age_sublist (rows : list row) (sex_key wck age_bracket lift : string) :
  sublist (by_age_values (ingest float rows) sex_key wck age_bracket lift)
          (all_ages_values (ingest float rows) sex_key wck lift).
Proof.
  rewrite by_age_values_ingest, all_ages_values_ingest.
  induction rows as [| r rows' IH]; simpl; [constructor |].
  apply sublist_app; [| done].
  unfold row_values_in_bracket.
  destruct (row_age_bracket float r) as [b |]; [| apply sublist_nil_l].
  destruct (truthy b && String.eqb b age_bracket); [done | apply sublist_nil_l].
Qed.


(** X11.  Every value aggregated for a bucket is positive and was read from
    a cell that does not start with a minus sign: failed attempts, zeros and
    empty cells are never stored. *)
Theorem aggregated_values_positive (rows : list row) (sex_key wck lift : string) :
  Forall (fun x => (0 < x)%Q)
         (all_ages_values (ingest float rows) sex_key wck lift) /\
  forall x,
    In x (all_ages_values (ingest float rows) sex_key wck lift) ->
    exists r column,
      In r rows /\ dict_get COLUMNS lift = Some column /\
      startswith (cell r column) "-" = false /\
      float (cell r column) = Some x.
Proof.
  split; [apply all_ages_positive |].
  intros x Hx. apply all_ages_sources in Hx as (r & column & Hr & Hc & Hv).
  apply valid_lift_positive in Hv as (_ & _ & Hminus & Hf).
  by exists r, column.
Qed.

(** X12.  The values aggregated under an age bracket are a sub-sequence of
    the values aggregated over all ages for the same sex, weight class and
    lift: an age-bracket list is never longer than the all-ages list. *)
Theorem by_age_within_all_ages (rows : list row)
    (sex_key wck age_bracket lift : string) :
  sublist (by_age_values (ingest float rows) sex_key wck age_bracket lift)
          (all_ages_values (ingest float rows) sex_key wck lift) /\
  len (by_age_values (ingest float rows) sex_key wck age_bracket lift)
  <= len (all_ages_values (ingest float rows) sex_key wck lift).
Proof.
  pose proof (by_age_sublist rows sex_key wck age_bracket lift) as Hsub.
  split; [done |]. unfold len. apply sublist_length in Hsub. lia.
Qed.

Lemma first_bracket_label (age : Q) (brackets : list (Z * Z * string)) (b : string) :
  first_bracket age brackets = Some b -> In b (map (fun ab => ab.2) brackets).
Proof.
  induction brackets as [| [[mn mx] lbl] rest IH]; simpl; [done |].
  destruct (leb (inject_Z mn) age && leb age (inject_Z mx)).
  - intros [= <-]. by left.
  - intros H. right. by apply IH.
Qed.

Lemma row_age_bracket_label (r : row) (b : string) :
  row_age_bracket float r = Some b -> In b bracket_names.
Proof.
  unfold row_age_bracket.
  destruct (truthy (cell r "Age")); [| done].
  destruct (float (cell r "Age")) as [age |]; [| done].
  apply first_bracket_label.
Qed.

Lemma lift_of_column (lift column : string) :
  dict_get COLUMNS lift = Some column -> In lift LIFTS.
Proof.
  rewrite column_of_lift. unfold LIFTS.
  destruct (String.eqb_spec "squat" lift); [simpl; tauto |].
  destruct (String.eqb_spec "bench" lift); [simpl; tauto |].
  destruct (String.eqb_spec "deadlift" lift); [simpl; tauto | done].
Qed.

Lemma all_ages_bucket (rows : list row) (sex_key wck lift : string) :
  all_ages_values (ingest float rows) sex_key wck lift <> [] ->
  (sex_key = "male" \/ sex_key = "female") /\
  In wck (class_labels (String.eqb sex_key "male")) /\
  In lift LIFTS.
Proof.
  rewrite all_ages_values_ingest. intros Hne.
  destruct (flat_map (fun r => row_values float r sex_key wck lift) rows)
    as [| x xs] eqn:E; [done |].
  assert (Hx : In x (flat_map (fun r => row_values float r sex_key wck lift) rows)).
  { rewrite E. by left. }
  apply in_flat_map in Hx as (r & _ & Hx).
  apply row_values_valid in Hx as (bodyweight & column & _ & Hsex & -> & Hc & _).
  split; [done |]. split; [apply get_weight_class_in_labels |].
  by apply (lift_of_column lift column).
Qed.

Lemma by_age_bucket (rows : list row) (sex_key wck age_bracket lift : string) :
  by_age_values (ingest float rows) sex_key wck age_bracket lift <> [] ->
  In age_bracket bracket_names /\
  all_ages_values (ingest float rows) sex_key wck lift <> [].
Proof.
  rewrite by_age_values_ingest, all_ages_values_ingest. intros Hne.
  destruct (flat_map
              (fun r => row_values_in_bracket float r sex_key wck age_bracket lift)
              rows) as [| x xs] eqn:E; [done |].
  assert (Hx : In x (flat_map
                       (fun r => row_values_in_bracket float r sex_key wck
                                   age_bracket lift) rows)).
  { rewrite E. by left. }
  apply in_flat_map in Hx as (r & Hr & Hx).
  unfold row_values_in_bracket in Hx.
  destruct (row_age_bracket float r) as [b |] eqn:Eb; [| done].
  destruct (truthy b); [| done].
  destruct (String.eqb_spec b age_bracket) as [<- | Hb]; [| done].
  simpl in Hx. split; [by apply (row_age_bracket_label r) |].
  intros Hnil.
  assert (Hin : In x (flat_map (fun r => row_values float r sex_key wck lift) rows)).
  { apply in_flat_map. by exists r. }
  by rewrite Hnil in Hin.
Qed.

(** X13.  Values are aggregated only under the keys ["male"] and
    ["female"], only under one of the nine labels of the sex, only for the
    three lifts and, by age, only under the six bracket labels: every
    other list stays empty. *)
Theorem aggregated_only_in_buckets (rows : list row)
    (sex_key wck age_bracket lift : string) :
  let t := ingest float rows in
  (all_ages_values t sex_key wck lift <> [] ->
   (sex_key = "male" \/ sex_key = "female") /\
   In wck (class_labels (String.eqb sex_key "male")) /\
   In lift LIFTS) /\
  (by_age_values t sex_key wck age_bracket lift <> [] ->
   (sex_key = "male" \/ sex_key = "female") /\
   In wck (class_labels (String.eqb sex_key "male")) /\
   In lift LIFTS /\
   In age_bracket bracket_names).
Proof.
  intros t. split.
  - apply all_ages_bucket.
  - intros Hne. apply by_age_bucket in Hne as [Hb Hall].
    apply all_ages_bucket in Hall as (Hsex & Hw & Hl). done.
Qed.
End RowFacts.

(** ** The generator in closed form *)

(** A loop that, at each turn, sets one fresh key of a dictionary held
    inside its state, or leaves the state alone, collects the entries in
    the order of the loop. *)
Lemma for_each_collect {A S V : Type} (wrap : list (string * V) -> S)
    (body : A -> S -> option S) (key : A -> string)
    (g : A -> option (string * V)) (l : list A) (d0 : list (string * V)) :
  (forall a d,
      In a l ->
      body a (wrap d) =
        Some (wrap (match g a with
                    | Some (k, v) => dict_set d k v
                    | None => d
                    end))) ->
  (forall a k v, g a = Some (k, v) -> k = key a) ->
  List.NoDup (map key l) ->
  (forall a, In a l -> ~ In (key a) (keys d0)) ->
  for_each body l (wrap d0) = Some (wrap (d0 ++ omap g l)%list).
Proof.
  intros Hbody Hkey. revert d0.
  induction l as [| a l IH]; intros d0 Hnodup Hfresh; simpl.
  - by rewrite app_nil_r.
  - apply List.NoDup_cons_iff in Hnodup as [Ha Hnodup].
    rewrite Hbody by (by left).
    assert (Hrest : forall a' d, In a' l ->
               body a' (wrap d) =
                 Some (wrap (match g a' with
                             | Some (k, v) => dict_set d k v
                             | None => d
                             end))).
    { intros a' d Hin. apply Hbody. by right. }
    destruct (g a) as [[k v] |] eqn:Eg.
    + apply Hkey in Eg as ->.
      rewrite dict_set_fresh by (apply Hfresh; by left).
      rewrite (IH Hrest) ; [by rewrite <- app_assoc | done |].
      intros a' Hin. unfold keys. rewrite map_app, in_app_iff. simpl.
      intros [Hd | [Heq | []]].
      * apply (Hfresh a'); [by right | done].
      * apply Ha. rewrite Heq. by apply in_map.
    + apply (IH Hrest); [done |]. intros a' Hin. apply Hfresh. by right.
Qed.

Lemma for_each_collect_nil {A S V : Type} (wrap : list (string * V) -> S)
    (body : A -> S -> option S) (key : A -> string)
    (g : A -> option (string * V)) (l : list A) :
  (forall a d,
      In a l ->
      body a (wrap d) =
        Some (wrap (match g a with
                    | Some (k, v) => dict_set d k v
                    | None => d
                    end))) ->
  (forall a k v, g a = Some (k, v) -> k = key a) ->
  List.NoDup (map key l) ->
  for_each body l (wrap []) = Some (wrap (omap g l)).
Proof.
  intros Hbody Hkey Hnodup.
  rewrite (for_each_collect wrap body key g l []); [done | done | done | done |].
  intros a _ [].
Qed.

Lemma for_each_app {A S : Type} (body : A -> S -> option S) (l1 l2 : list A) (s : S) :
  for_each body (l1 ++ l2) s = s' ← for_each body l1 s; for_each body l2 s'.
Proof.
  revert s. induction l1 as [| a l1 IH]; intros s; simpl; [done |].
  destruct (body a s); [apply IH | done].
Qed.

(** A loop over a loop is one loop over the concatenation. *)
Lemma for_each_flat_map {A B S : Type} (body : B -> S -> option S)
    (inner : A -> list B) (l : list A) (s : S) :
  for_each (fun a s0 => for_each body (inner a) s0) l s =
  for_each body (flat_map inner l) s.
Proof.
  revert s. induction l as [| a l IH]; intros s; simpl; [done |].
  rewrite for_each_app. destruct (for_each body (inner a) s); [apply IH | done].
Qed.

Lemma distinct_by_decision (l : list string) :
  bool_decide (NoDup l) = true -> List.NoDup l.
Proof. intros H. apply NoDup_ListNoDup. by apply bool_decide_eq_true in H. Qed.

Lemma LIFTS_distinct : List.NoDup (map (fun k : string => k) LIFTS).
Proof. rewrite map_id. by apply distinct_by_decision. Qed.

Lemma bracket_names_distinct : List.NoDup (map (fun k : string => k) bracket_names).
Proof. rewrite map_id. by apply distinct_by_decision. Qed.

Lemma class_keys_distinct (sex_key : string) :
  List.NoDup (map (fun k : string => k) (class_keys sex_key)).
Proof.
  rewrite map_id. unfold class_keys.
  destruct (String.eqb sex_key "male"); by apply distinct_by_decision.
Qed.

(** A key that is missing from a [defaultdict] reads as the empty value. *)
Lemma contains_false {V : Type} `{Inhabited V} (m : gmap string V) (k : string) :
  contains m k = false -> m !!! k = inhabitant.
Proof.
  unfold contains. intros Hc. apply bool_decide_eq_false in Hc.
  rewrite lookup_total_alt.
  destruct (m !! k) as [v |] eqn:E; [| done]. exfalso. apply Hc. by exists v.
Qed.

Section ClosedForm.
Variable t : tables.
Variable sex_key : string.

Lemma all_ages_loop_closed (wck : string) :
  for_each (all_ages_body t sex_key wck) LIFTS
    [("all_ages", VDict []); ("by_age", VDict [])]
  = Some [("all_ages", VDict (all_ages_table t sex_key wck)); ("by_age", VDict [])].
Proof.
  unfold all_ages_table.
  apply (for_each_collect_nil
           (fun d => [("all_ages", VDict d); ("by_age", VDict [])])
           _ (fun lift => lift)).
  - intros lift d _. unfold all_ages_body.
    destruct (Z.leb_spec 50 (len (all_ages_values t sex_key wck lift))) as [Hlen | Hlen];
      [| done].
    rewrite lift_entry_spec by (eapply len_positive_nonempty; [| exact Hlen]; lia).
    reflexivity.
  - intros lift k v. destruct (50 <=? _); [by intros [= <- _] | done].
  - apply LIFTS_distinct.
Qed.

Lemma age_lift_loop_closed (wck age_bracket : string) :
  for_each (age_lift_body t sex_key wck age_bracket) LIFTS []
  = Some (age_table t sex_key wck age_bracket).
Proof.
  unfold age_table.
  apply (for_each_collect_nil (fun d => d) _ (fun lift => lift)).
  - intros lift d _. unfold age_lift_body.
    destruct (Z.leb_spec 30 (len (by_age_values t sex_key wck age_bracket lift)))
      as [Hlen | Hlen]; [| done].
    rewrite lift_entry_spec by (eapply len_positive_nonempty; [| exact Hlen]; lia).
    reflexivity.
  - intros lift k v. destruct (30 <=? _); [by intros [= <- _] | done].
  - apply LIFTS_distinct.
Qed.

Lemma age_table_missing (wck age_bracket : string) :
  contains (data t !!! sex_key) wck = false
  \/ contains ((data t !!! sex_key) !!! wck) age_bracket = false ->
  age_table t sex_key wck age_bracket = [].
Proof.
  intros Hmiss.
  assert (Hempty : forall lift, by_age_values t sex_key wck age_bracket lift = []).
  { intros lift. unfold by_age_values. destruct Hmiss as [Hc | Hc].
    - rewrite (contains_false _ _ Hc). unfold inhabitant. simpl.
      by rewrite !lookup_total_empty.
    - rewrite (contains_false _ _ Hc). unfold inhabitant. simpl.
      by rewrite !lookup_total_empty. }
  unfold age_table. induction LIFTS as [| lift lifts IH]; [done |].
  simpl. by rewrite Hempty.
Qed.

Lemma all_ages_table_missing (wck : string) :
  contains (all_ages_data t !!! sex_key) wck = false ->
  all_ages_table t sex_key wck = [].
Proof.
  intros Hc.
  assert (Hempty : forall lift, all_ages_values t sex_key wck lift = []).
  { intros lift. unfold all_ages_values.
    rewrite (contains_false _ _ Hc). unfold inhabitant. simpl.
    by rewrite !lookup_total_empty. }
  unfold all_ages_table. induction LIFTS as [| lift lifts IH]; [done |].
  simpl. by rewrite Hempty.
Qed.

Lemma by_age_loop_closed (wck : string) (all_ages : list (string * value)) :
  for_each (by_age_body t sex_key wck) bracket_names
    [("all_ages", VDict all_ages); ("by_age", VDict [])]
  = Some [("all_ages", VDict all_ages); ("by_age", VDict (by_age_table t sex_key wck))].
Proof.
  unfold by_age_table.
  apply (for_each_collect_nil
           (fun d => [("all_ages", VDict all_ages); ("by_age", VDict d)])
           _ (fun age_bracket => age_bracket)).
  - intros age_bracket d _. unfold by_age_body.
    destruct (contains (data t !!! sex_key) wck) eqn:Ec; cbn [negb];
      [| by rewrite age_table_missing by (by left)].
    destruct (contains ((data t !!! sex_key) !!! wck) age_bracket) eqn:Eb; cbn [negb];
      [| by rewrite age_table_missing by (by right)].
    rewrite age_lift_loop_closed. cbn [mbind option_bind].
    by destruct (age_table t sex_key wck age_bracket).
  - intros age_bracket k v.
    destruct (age_table t sex_key wck age_bracket); [done | by intros [= <- _]].
  - apply bracket_names_distinct.
Qed.

(** What the body of the innermost class loop does to the dictionary of
    its own sex. *)
Lemma class_key_body_closed (wck : string) (result : list (string * value)) :
  class_key_body t sex_key wck result =
    match all_ages_table t sex_key wck with
    | [] => Some result
    | all_ages =>
        setitem2 result sex_key wck
          (VDict [("all_ages", VDict all_ages);
                  ("by_age", VDict (by_age_table t sex_key wck))])
    end.
Proof.
  unfold class_key_body.
  destruct (contains (all_ages_data t !!! sex_key) wck) eqn:Ec; cbn [negb];
    [| by rewrite all_ages_table_missing].
  cbv zeta. rewrite all_ages_loop_closed. cbn [mbind option_bind].
  rewrite by_age_loop_closed.
  cbn [mbind option_bind dict_get String.eqb Ascii.eqb Bool.eqb truthy_value].
  by destruct (all_ages_table t sex_key wck).
Qed.
End ClosedForm.

Lemma sex_body_flat (t : tables) (sex_key : string) (result : list (string * value)) :
  sex_body t sex_key result =
  for_each (class_key_body t sex_key) (class_keys sex_key) result.
Proof.
  unfold sex_body, class_body, class_keys.
  apply (for_each_flat_map (class_key_body t sex_key)
           (fun wc => [str wc; str_plus wc])).
Qed.

Lemma class_loop_closed (t : tables) (sex_key : string)
    (wrap : list (string * value) -> list (string * value)) :
  (forall d wck v, setitem2 (wrap d) sex_key wck v = Some (wrap (dict_set d wck v))) ->
  for_each (class_key_body t sex_key) (class_keys sex_key) (wrap [])
  = Some (wrap (class_table t sex_key)).
Proof.
  intros Hset. unfold class_table.
  apply (for_each_collect_nil wrap _ (fun k => k)).
  - intros wck d _. rewrite class_key_body_closed.
    destruct (all_ages_table t sex_key wck); [done | apply Hset].
  - intros wck k v.
    destruct (all_ages_table t sex_key wck); [done | by intros [= <- _]].
  - apply class_keys_distinct.
Qed.

(** The generator never raises and builds [expected_result]. *)
Lemma generate_closed (t : tables) :
  generate t = Some (VDict (expected_result t)).
Proof.
  unfold generate. cbn [for_each]. rewrite sex_body_flat. unfold initial_result.
  rewrite (class_loop_closed t "male"
             (fun d => [("metadata", metadata t); ("male", VDict d);
                        ("female", VDict [])])) by done.
  rewrite sex_body_flat.
  rewrite (class_loop_closed t "female"
             (fun d => [("metadata", metadata t);
                        ("male", VDict (class_table t "male"));
                        ("female", VDict d)])) by done.
  done.
Qed.
(** Reading a dictionary collected by a loop over keys. *)
Lemma dict_get_omap {V : Type} (g : string -> option (string * V))
    (l : list string) (k : string) :
  (forall a k' v, g a = Some (k', v) -> k' = a) ->
  dict_get (omap g l) k =
    if existsb (String.eqb k) l then snd <$> g k else None.
Proof.
  intros Hkey. induction l as [| a l IH]; [done |].
  cbn [omap list_omap existsb].
  destruct (g a) as [[k' v] |] eqn:Eg.
  - apply Hkey in Eg as Hk. subst k'. cbn [dict_get].
    rewrite (String.eqb_sym k a).
    destruct (String.eqb_spec a k) as [-> | Hne]; cbn [orb];
      [rewrite Eg; reflexivity | apply IH].
  - rewrite IH. destruct (String.eqb_spec k a) as [-> | Hne]; cbn [orb]; [| done].
    rewrite Eg. by destruct (existsb _ l).
Qed.

Section ReadExpected.
Variable t : tables.

Lemma expected_sexes (sex_key : string) :
  sex_key = "male" \/ sex_key = "female" ->
  dict_get (expected_result t) sex_key = Some (VDict (class_table t sex_key)).
Proof. by intros [-> | ->]. Qed.

(** Below ["metadata"] there are scalars and one list, no dictionary;
    other top-level keys do not exist. *)
Lemma expected_other (sex_key wck k : string) (ks : list string) :
  sex_key <> "male" -> sex_key <> "female" ->
  at_path (VDict (expected_result t)) (sex_key :: wck :: k :: ks) = None.
Proof.
  intros Hm Hf. cbn [at_path item expected_result dict_get].
  destruct (String.eqb_spec "metadata" sex_key) as [<- | _].
  - unfold metadata. cbn [item dict_get].
    repeat (destruct (String.eqb _ wck); [reflexivity |]). reflexivity.
  - destruct (String.eqb_spec "male" sex_key) as [<- | _]; [done |].
    by destruct (String.eqb_spec "female" sex_key) as [<- | _].
Qed.

Lemma class_table_get (sex_key wck : string) :
  dict_get (class_table t sex_key) wck =
    if existsb (String.eqb wck) (class_keys sex_key) then
      match all_ages_table t sex_key wck with
      | [] => None
      | all_ages =>
          Some (VDict [("all_ages", VDict all_ages);
                       ("by_age", VDict (by_age_table t sex_key wck))])
      end
    else None.
Proof.
  unfold class_table. rewrite dict_get_omap.
  - destruct (existsb _ _); [| done]. by destruct (all_ages_table t sex_key wck).
  - intros a k v. destruct (all_ages_table t sex_key a); [done | by intros [= <- _]].
Qed.

Lemma all_ages_table_get (sex_key wck lift : string) :
  dict_get (all_ages_table t sex_key wck) lift =
    if existsb (String.eqb lift) LIFTS
       && (50 <=? len (all_ages_values t sex_key wck lift))
    then Some (lift_stat (all_ages_values t sex_key wck lift))
    else None.
Proof.
  unfold all_ages_table. rewrite dict_get_omap.
  - destruct (existsb _ _); [| done]. cbv zeta. by destruct (50 <=? _).
  - intros a k v. cbv zeta. destruct (50 <=? _); [by intros [= <- _] | done].
Qed.

Lemma age_table_get (sex_key wck age_bracket lift : string) :
  dict_get (age_table t sex_key wck age_bracket) lift =
    if existsb (String.eqb lift) LIFTS
       && (30 <=? len (by_age_values t sex_key wck age_bracket lift))
    then Some (lift_stat (by_age_values t sex_key wck age_bracket lift))
    else None.
Proof.
  unfold age_table. rewrite dict_get_omap.
  - destruct (existsb _ _); [| done]. cbv zeta. by destruct (30 <=? _).
  - intros a k v. cbv zeta. destruct (30 <=? _); [by intros [= <- _] | done].
Qed.

Lemma by_age_table_get (sex_key wck age_bracket : string) :
  dict_get (by_age_table t sex_key wck) age_bracket =
    if existsb (String.eqb age_bracket) bracket_names then
      match age_table t sex_key wck age_bracket with
      | [] => None
      | age_data => Some (VDict age_data)
      end
    else None.
Proof.
  unfold by_age_table. rewrite dict_get_omap.
  - destruct (existsb _ _); [| done].
    by destruct (age_table t sex_key wck age_bracket).
  - intros a k v.
    destruct (age_table t sex_key wck a); [done | by intros [= <- _]].
Qed.

Lemma expected_all_ages (sex_key wck lift : string) :
  sex_key = "male" \/ sex_key = "female" ->
  at_path (VDict (expected_result t)) [sex_key; wck; "all_ages"; lift] =
    if existsb (String.eqb wck) (class_keys sex_key)
    then dict_get (all_ages_table t sex_key wck) lift
    else None.
Proof.
  intros Hsex. cbn [at_path item]. rewrite expected_sexes by done.
  cbn [item]. rewrite class_table_get. destruct (existsb _ _); [| done].
  destruct (all_ages_table t sex_key wck) as [| kv all_ages]; [reflexivity |].
  generalize (kv :: all_ages). intros d.
  cbn [item dict_get String.eqb Ascii.eqb Bool.eqb].
  by destruct (dict_get d lift).
Qed.

Lemma expected_by_age (sex_key wck age_bracket lift : string) :
  sex_key = "male" \/ sex_key = "female" ->
  at_path (VDict (expected_result t)) [sex_key; wck; "by_age"; age_bracket; lift] =
    if class_emitted t sex_key wck
    then age_data ← dict_get (by_age_table t sex_key wck) age_bracket;
         item age_data lift
    else None.
Proof.
  intros Hsex. cbn [at_path item]. rewrite expected_sexes by done.
  cbn [item]. rewrite class_table_get. unfold class_emitted.
  destruct (existsb _ _); [| done].
  destruct (all_ages_table t sex_key wck); [done |].
  cbn [item dict_get String.eqb Ascii.eqb Bool.eqb andb mbind option_bind].
  destruct (dict_get (by_age_table t sex_key wck) age_bracket) as [v |];
    cbn [mbind option_bind]; [| reflexivity].
  destruct (item v lift); reflexivity.
Qed.
End ReadExpected.

(** ** What the output holds, exactly *)

Lemma class_labels_tried (sex_key wck : string) :
  sex_key = "male" \/ sex_key = "female" ->
  In wck (class_labels (String.eqb sex_key "male")) ->
  existsb (String.eqb wck) (class_keys sex_key) = true.
Proof.
  intros [-> | ->] Hin; simpl in Hin;
    repeat (destruct Hin as [<- | Hin]; [reflexivity |]); done.
Qed.

Lemma all_ages_table_nonempty (t : tables) (sex_key wck : string) :
  all_ages_table t sex_key wck <> [] <->
  exists lift, In lift LIFTS /\ 50 <= len (all_ages_values t sex_key wck lift).
Proof.
  unfold all_ages_table, LIFTS. cbn [omap list_omap]. cbv zeta. split.
  - intros Hne.
    destruct (Z.leb_spec 50 (len (all_ages_values t sex_key wck "squat")));
      [exists "squat"; simpl; tauto |].
    destruct (Z.leb_spec 50 (len (all_ages_values t sex_key wck "bench")));
      [exists "bench"; simpl; tauto |].
    destruct (Z.leb_spec 50 (len (all_ages_values t sex_key wck "deadlift")));
      [exists "deadlift"; simpl; tauto | done].
  - intros (lift & Hin & Hlen).
    destruct Hin as [<- | [<- | [<- | []]]];
      repeat match goal with
             | |- context [50 <=? ?n] => destruct (Z.leb_spec 50 n)
             end; try done; lia.
Qed.

Section Emission.
Variable float : string -> option Q.
Variable rows : list row.

Lemma process_data_closed :
  process_data float rows = Some (VDict (expected_result (ingest float rows))).
Proof. apply generate_closed. Qed.

Lemma sex_key_cases (sex_key : string) :
  (sex_key = "male" \/ sex_key = "female")
  \/ (sex_key <> "male" /\ sex_key <> "female").
Proof.
  destruct (String.eqb_spec sex_key "male"); [by left; left |].
  destruct (String.eqb_spec sex_key "female"); [by left; right |].
  by right.
Qed.



(** X14.  A statistic over all ages is in the output exactly when at least
    50 values were aggregated for its sex, weight class and lift, and it is
    then the statistic of those values: the threshold both permits and
    forces the entry. *)
Theorem all_ages_emitted_iff (sex_key wck lift : string) (st : value) :
  let values := all_ages_values (ingest float rows) sex_key wck lift in
  (result ← process_data float rows;
   at_path result [sex_key; wck; "all_ages"; lift]) = Some st
  <-> 50 <= len values /\ st = lift_stat values.
Proof.
  intros values. rewrite process_data_closed. cbn [mbind option_bind].
  destruct (sex_key_cases sex_key) as [Hsex | [Hm Hf]].
  - rewrite expected_all_ages by done. rewrite all_ages_table_get. fold values.
    split.
    + destruct (existsb _ (class_keys sex_key)); [| done].
      destruct (existsb _ LIFTS); [| done]. cbn [andb].
      destruct (Z.leb_spec 50 (len values)); [| done].
      by intros [= <-].
    + intros [Hlen ->].
      assert (Hne : values <> []).
      { eapply len_positive_nonempty; [| exact Hlen]. lia. }
      apply all_ages_bucket in Hne as (_ & Hw & Hl).
      rewrite (class_labels_tried sex_key wck Hsex Hw).
      rewrite (existsb_eqb_In lift LIFTS Hl). cbn [andb].
      destruct (Z.leb_spec 50 (len values)); [done | lia].
  - rewrite expected_other by done. split; [done |]. intros [Hlen _].
    assert (Hne : values <> []).
    { eapply len_positive_nonempty; [| exact Hlen]. lia. }
    apply all_ages_bucket in Hne as ([-> | ->] & _); done.
Qed.

(** X15.  A statistic under an age bracket is in the output exactly when
    at least 30 values were aggregated for the bracket and lift, and some
    lift of the weight class has at least 50 values over all ages. *)
Theorem by_age_emitted_iff (sex_key wck age_bracket lift : string) (st : value) :
  let t := ingest float rows in
  let values := by_age_values t sex_key wck age_bracket lift in
  (result ← process_data float rows;
   at_path result [sex_key; wck; "by_age"; age_bracket; lift]) = Some st
  <-> 30 <= len values /\ st = lift_stat values /\
      exists lift', In lift' LIFTS /\ 50 <= len (all_ages_values t sex_key wck lift').
Proof.
  intros t values. rewrite process_data_closed. cbn [mbind option_bind]. fold t.
  destruct (sex_key_cases sex_key) as [Hsex | [Hm Hf]].
  - rewrite expected_by_age by done. unfold class_emitted.
    rewrite by_age_table_get. split.
    + destruct (existsb _ (class_keys sex_key)); [| done]. cbn [andb].
      destruct (all_ages_table t sex_key wck) as [| kv aa] eqn:Ea; [done |].
      destruct (existsb _ bracket_names); [| done].
      destruct (age_table t sex_key wck age_bracket) as [| kv' ad] eqn:Ed; [done |].
      cbn [mbind option_bind item]. rewrite <- Ed, age_table_get. fold values.
      destruct (existsb _ LIFTS); [| done]. cbn [andb].
      destruct (Z.leb_spec 30 (len values)); [| done].
      intros [= <-]. split; [done |]. split; [done |].
      apply all_ages_table_nonempty. by rewrite Ea.
    + intros (Hlen & -> & Hclass).
      assert (Hne : values <> []).
      { eapply len_positive_nonempty; [| exact Hlen]. lia. }
      destruct (by_age_bucket float rows _ _ _ _ Hne) as [Hb Hall].
      apply all_ages_bucket in Hall as (_ & Hw & Hl).
      rewrite (class_labels_tried sex_key wck Hsex Hw). cbn [andb].
      apply all_ages_table_nonempty in Hclass.
      destruct (all_ages_table t sex_key wck) as [| kv aa]; [done |].
      rewrite (existsb_eqb_In age_bracket bracket_names Hb).
      assert (Hget : dict_get (age_table t sex_key wck age_bracket) lift
                     = Some (lift_stat values)).
      { rewrite age_table_get. fold values.
        rewrite (existsb_eqb_In lift LIFTS Hl). cbn [andb].
        destruct (Z.leb_spec 30 (len values)); [done | lia]. }
      destruct (age_table t sex_key wck age_bracket) as [| kv' ad]; [done |].
      cbn [mbind option_bind item]. exact Hget.
  - rewrite expected_other by done. split; [done |]. intros (Hlen & _).
    assert (Hne : values <> []).
    { eapply len_positive_nonempty; [| exact Hlen]. lia. }
    destruct (by_age_bucket float rows _ _ _ _ Hne) as [_ Hall].
    apply all_ages_bucket in Hall as ([-> | ->] & _); done.
Qed.
End Emission.

(** ** The order of the rows *)

Lemma round_half_even_proper (x y : Q) :
  x == y -> round_half_even x = round_half_even y.
Proof.
  intros Hxy. unfold round_half_even.
  rewrite (Qfloor_comp x y Hxy).
  assert (Hc : (x - inject_Z (Qfloor y) ?= 1 # 2)%Q = (y - inject_Z (Qfloor y) ?= 1 # 2)%Q).
  { apply Qcompare_comp; [by rewrite Hxy | reflexivity]. }
  by rewrite Hc.
Qed.

Lemma round1_proper (x y : Q) : x == y -> round1 x = round1 y.
Proof.
  intros Hxy. unfold round1.
  rewrite (round_half_even_proper (x * inject_Z 10) (y * inject_Z 10));
    [done | by rewrite Hxy].
Qed.

(** [calculate_percentile] looks at its list through [sorted] only. *)
Lemma calculate_percentile_sorted (l1 l2 : list Q) (p : Z) :
  Forall2 Qeq (sorted l1) (sorted l2) ->
  option_Forall2 Qeq (calculate_percentile l1 p) (calculate_percentile l2 p).
Proof.
  intros Hs.
  assert (Hlen : len l1 = len l2).
  { rewrite <- (sorted_len l1), <- (sorted_len l2). unfold len.
    by rewrite (Forall2_length _ _ _ Hs). }
  destruct l1 as [| x1 l1], l2 as [| x2 l2];
    [constructor; reflexivity | done | done |].
  unfold calculate_percentile.
  set (s1 := sorted (x1 :: l1)) in *. set (s2 := sorted (x2 :: l2)) in *.
  assert (Hlen' : len s1 = len s2).
  { unfold len. by rewrite (Forall2_length _ _ _ Hs). }
  rewrite Hlen'.
  set (index := (inject_Z ((len s2 - 1) * p) / inject_Z 100)%Q).
  destruct (len s2 <=? int index + 1); [by apply getitem_proper |].
  destruct (getitem_proper s1 s2 (int index) Hs) as [a1 a2 Ha |];
    [| constructor].
  destruct (getitem_proper s1 s2 (int index + 1) Hs) as [b1 b2 Hb |];
    [| constructor].
  constructor. by rewrite Ha, Hb.
Qed.

Lemma lift_stat_perm (l1 l2 : list Q) :
  Permutation l1 l2 -> lift_stat l1 = lift_stat l2.
Proof.
  intros Hperm. unfold lift_stat, len.
  rewrite (Permutation_length Hperm). do 5 f_equal.
  apply map_ext. intros p. do 2 f_equal. apply round1_proper.
  unfold percentile_value.
  destruct (calculate_percentile_sorted l1 l2 p (sorted_proper l1 l2 Hperm));
    [done | reflexivity].
Qed.

Lemma omap_ext_all {A B : Type} (f g : A -> option B) (l : list A) :
  (forall a, f a = g a) -> omap f l = omap g l.
Proof.
  intros Hfg. induction l as [| a l IH]; [done |].
  cbn [omap list_omap]. by rewrite Hfg, IH.
Qed.

Lemma filter_length_perm {A : Type} (f : A -> bool) (l1 l2 : list A) :
  Permutation l1 l2 -> length (List.filter f l1) = length (List.filter f l2).
Proof.
  induction 1 as [| x l1 l2 _ IH | x y l | l1 l2 l3 _ IH12 _ IH23]; simpl.
  - done.
  - destruct (f x); simpl; by rewrite IH.
  - by destruct (f x), (f y).
  - by rewrite IH12.
Qed.

Section RowOrder.
Variable float : string -> option Q.

(** X16.  The result does not depend on the order of the rows: the same
    rows in another order give the same dictionary, entry for entry. *)
Theorem process_data_row_order (rows1 rows2 : list row) :
  Permutation rows1 rows2 ->
  process_data float rows1 = process_data float rows2.
Proof.
  intros Hperm. rewrite !process_data_closed. do 2 f_equal.
  set (t1 := ingest float rows1). set (t2 := ingest float rows2).
  assert (Hall : forall sex_key wck lift,
             Permutation (all_ages_values t1 sex_key wck lift)
                         (all_ages_values t2 sex_key wck lift)).
  { intros sex_key wck lift. subst t1 t2. rewrite !all_ages_values_ingest.
    by apply Permutation_flat_map. }
  assert (Hby : forall sex_key wck ab lift,
             Permutation (by_age_values t1 sex_key wck ab lift)
                         (by_age_values t2 sex_key wck ab lift)).
  { intros sex_key wck ab lift. subst t1 t2. rewrite !by_age_values_ingest.
    by apply Permutation_flat_map. }
  assert (Hcount : included_count t1 = included_count t2).
  { subst t1 t2. unfold ingest. rewrite !fold_included.
    by rewrite (filter_length_perm _ _ _ Hperm). }
  assert (Haa : forall sex_key wck,
             all_ages_table t1 sex_key wck = all_ages_table t2 sex_key wck).
  { intros sex_key wck. unfold all_ages_table. apply omap_ext_all. intros lift.
    cbv zeta. unfold len. rewrite (Permutation_length (Hall sex_key wck lift)).
    by rewrite (lift_stat_perm _ _ (Hall sex_key wck lift)). }
  assert (Had : forall sex_key wck ab,
             age_table t1 sex_key wck ab = age_table t2 sex_key wck ab).
  { intros sex_key wck ab. unfold age_table. apply omap_ext_all. intros lift.
    cbv zeta. unfold len. rewrite (Permutation_length (Hby sex_key wck ab lift)).
    by rewrite (lift_stat_perm _ _ (Hby sex_key wck ab lift)). }
  assert (Hba : forall sex_key wck,
             by_age_table t1 sex_key wck = by_age_table t2 sex_key wck).
  { intros sex_key wck. unfold by_age_table. apply omap_ext_all. intros ab.
    by rewrite Had. }
  assert (Hct : forall sex_key, class_table t1 sex_key = class_table t2 sex_key).
  { intros sex_key. unfold class_table. apply omap_ext_all. intros wck.
    by rewrite Haa, Hba. }
  unfold expected_result, metadata. by rewrite Hcount, !Hct.
Qed.

Lemma keys_omap_sublist {V : Type} (g : string -> option (string * V))
    (P : string -> bool) (l : list string) :
  (forall a k v, g a = Some (k, v) -> k = a /\ P a = true) ->
  sublist (keys (omap g l)) (List.filter P l).
Proof.
  intros Hg. induction l as [| a l IH]; [constructor |].
  cbn [omap list_omap List.filter].
  destruct (g a) as [[k v] |] eqn:Eg.
  - apply Hg in Eg as [-> ->]. by constructor.
  - destruct (P a); [by constructor | done].
Qed.

(** X17.  Under each sex the keys of the result are among the nine labels
    of that sex and come in their order: ascending thresholds, the ["+"]
    class last, none twice.  A key such as ["59+"], which the loop also
    tries, is never emitted. *)
Theorem class_keys_in_order (rows : list row) (sex_key : string) :
  sex_key = "male" \/ sex_key = "female" ->
  exists classes,
    (result ← process_data float rows; item result sex_key)
    = Some (VDict classes) /\
    sublist (keys classes) (class_labels (String.eqb sex_key "male")) /\
    (length classes <= 9)%nat.
Proof.
  intros Hsex. rewrite process_data_closed. cbn [mbind option_bind item].
  rewrite expected_sexes by done.
  exists (class_table (ingest float rows) sex_key). split; [done |].
  assert (Hsub : sublist (keys (class_table (ingest float rows) sex_key))
                         (class_labels (String.eqb sex_key "male"))).
  { assert (Hfilter : List.filter
                        (fun k => existsb (String.eqb k)
                                    (class_labels (String.eqb sex_key "male")))
                        (class_keys sex_key)
                      = class_labels (String.eqb sex_key "male")).
    { by destruct Hsex as [-> | ->]. }
    rewrite <- Hfilter. unfold class_table. apply keys_omap_sublist.
    intros wck k v.
    destruct (all_ages_table (ingest float rows) sex_key wck) as [| kv aa] eqn:Ea;
      [done |].
    intros [= <- _]. split; [done |]. apply existsb_eqb_In.
    assert (Hne : all_ages_table (ingest float rows) sex_key wck <> [])
      by (by rewrite Ea).
    apply all_ages_table_nonempty in Hne as (lift & _ & Hlen).
    assert (Hv : all_ages_values (ingest float rows) sex_key wck lift <> []).
    { eapply len_positive_nonempty; [| exact Hlen]. lia. }
    by apply all_ages_bucket in Hv as (_ & Hw & _). }
  split; [done |].
  apply sublist_length in Hsub. unfold keys in Hsub. rewrite length_map in Hsub.
  assert (length (class_labels (String.eqb sex_key "male")) = 9%nat)
    by (by destruct Hsex as [-> | ->]).
  lia.
Qed.
End RowOrder.

(** ** The fetcher's choice *)

Lemma filter_head_In {A : Type} (f : A -> bool) (l : list A) (x : A) (xs : list A) :
  List.filter f l = x :: xs -> In x l /\ f x = true.
Proof.
  intros E. apply filter_In. rewrite E. by left.
Qed.

Lemma filter_nil_iff {A : Type} (f : A -> bool) (l : list A) :
  List.filter f l = [] <-> forall x, In x l -> f x = false.
Proof.
  induction l as [| a l IH]; simpl; [by split |].
  destruct (f a) eqn:E.
  - split; [done |]. intros H. specialize (H a (or_introl eq_refl)). congruence.
  - rewrite IH. split.
    + intros H x [<- | Hin]; [done | by apply H].
    + intros H x Hin. apply H. by right.
Qed.

(** X18.  The fetcher fails for lack of a CSV file exactly when no member
    of the archive has a name ending in [.csv]. *)
Theorem choose_csv_fails_iff (names : list string) :
  choose_csv names = None <-> forall f, In f names -> is_csv f = false.
Proof.
  unfold choose_csv.
  destruct (List.filter is_main_csv names) as [| f fs] eqn:Emain.
  - destruct (List.filter is_csv names) as [| g gs] eqn:Ecsv.
    + split; [| done]. intros _. by apply filter_nil_iff.
    + split; [done |]. intros H. apply filter_nil_iff in H. congruence.
  - split; [done |]. intros H.
    apply filter_head_In in Emain as [Hin Hmain].
    unfold is_main_csv in Hmain. apply andb_true_iff in Hmain as [Hcsv _].
    specialize (H f Hin). unfold is_csv in H. congruence.
Qed.

(** X19.  The member chosen is a member of the archive whose name ends in
    [.csv]; when some such name mentions [openpowerlifting], in any case of
    letters, the chosen one does too, even if another CSV file comes
    first. *)
Theorem choose_csv_prefers_main (names : list string) (f : string) :
  choose_csv names = Some f ->
  In f names /\ is_csv f = true /\
  ((exists g, In g names /\ is_main_csv g = true) -> is_main_csv f = true).
Proof.
  unfold choose_csv.
  destruct (List.filter is_main_csv names) as [| f' fs] eqn:Emain.
  - destruct (List.filter is_csv names) as [| g gs] eqn:Ecsv; [done |].
    intros [= <-]. apply filter_head_In in Ecsv as [Hin Hcsv].
    split; [done |]. split; [done |].
    intros (h & Hh & Hmain). exfalso.
    assert (is_main_csv h = false) by (by apply (filter_nil_iff is_main_csv names)).
    congruence.
  - intros [= <-]. apply filter_head_In in Emain as [Hin Hmain].
    split; [done |]. split; [| done].
    unfold is_main_csv in Hmain. by apply andb_true_iff in Hmain as [Hcsv _].
Qed.

(** ** The percentile table of a statistic *)







Section Tables.
Variable float : string -> option Q.
Variable rows : list row.

End Tables.

(** ** Batches of rows *)

Section Batches.
Variable float : string -> option Q.

(** X21.  Aggregation distributes over the concatenation of two batches of
    rows: each list of the whole is the list of the first batch followed by
    that of the second, and the lifter counts add up. *)
Theorem ingest_app (rows1 rows2 : list row)
    (sex_key wck age_bracket lift : string) :
  all_ages_values (ingest float (rows1 ++ rows2)) sex_key wck lift =
    (all_ages_values (ingest float rows1) sex_key wck lift
     ++ all_ages_values (ingest float rows2) sex_key wck lift)%list /\
  by_age_values (ingest float (rows1 ++ rows2)) sex_key wck age_bracket lift =
    (by_age_values (ingest float rows1) sex_key wck age_bracket lift
     ++ by_age_values (ingest float rows2) sex_key wck age_bracket lift)%list /\
  included_count (ingest float (rows1 ++ rows2)) =
    included_count (ingest float rows1) + included_count (ingest float rows2).
Proof.
  split; [| split].
  - rewrite !all_ages_values_ingest. apply flat_map_app.
  - rewrite !by_age_values_ingest. apply flat_map_app.
  - unfold ingest. rewrite !fold_included, List.filter_app, length_app.
    simpl. lia.
Qed.
End Batches.

(** * Worked inputs, continued *)




Lemma get_age_bracket_whole_witness :
  exists b, get_age_bracket (inject_Z 30) = Some b.
Proof. apply get_age_bracket_whole. lia. Defined.

Lemma get_age_bracket_any_range_witness :
  get_age_bracket 45 = Some "masters_40".
Proof.
  apply (get_age_bracket_any_range 45 (40, 49, "masters_40")).
  - simpl. tauto.
  - split; unfold Qle; simpl; lia.
Defined.

Lemma process_data_row_order_witness :
  process_data float_of_decimal [squat_row; aged_row "50"]
  = process_data float_of_decimal [aged_row "50"; squat_row].
Proof.
  apply process_data_row_order. apply perm_swap.
Defined.

Lemma class_keys_in_order_witness :
  exists classes,
    (result ← process_data float_of_decimal fifty_rows; item result "male")
    = Some (VDict classes) /\
    sublist (keys classes) (class_labels true) /\
    (length classes <= 9)%nat.
Proof.
  apply (class_keys_in_order float_of_decimal fifty_rows "male"). left. reflexivity.
Defined.

Lemma choose_csv_prefers_main_witness :
  let names := ["README.txt"; "notes.csv"; "OpenPowerlifting-2024.csv"] in
  choose_csv names = Some "OpenPowerlifting-2024.csv" /\
  is_main_csv "OpenPowerlifting-2024.csv" = true.
Proof.
  intros names.
  assert (Hc : choose_csv names = Some "OpenPowerlifting-2024.csv") by reflexivity.
  split; [exact Hc |].
  destruct (choose_csv_prefers_main names _ Hc) as (_ & _ & Hmain).
  apply Hmain. exists "OpenPowerlifting-2024.csv". split; [simpl; tauto | reflexivity].
Defined.

